(** * The periodic task scheduler of callAPIBotTelegram

    A shallow embedding of [internal/api/v1/handler/scheduler.go]:
    the operation registry, the retry executor [callWithRetry], one
    cycle [runOnce], the timed driver [runLoop] and the lifecycle
    surface [Start] / [Stop] / [IsRunning].

    Modelling choices.
    - Go's [int] and [int64] are [Z]; no claim depends on wrap-around.
      The [float64] interval is a rational [Q].
    - Time is a logical clock in nanoseconds ([clock]), advanced by the
      waits of the scheduler and by the external collaborators.
    - The code runs on two goroutines: the caller of [Start]/[Stop] and
      the background loop.  The loop is embedded as a state-passing
      function; the caller's [Stop()] is an environment event at a
      fixed instant ([stopAt]), whose critical section is applied the
      next time the loop looks at the shared state.
    - Channels live in a heap [chans] of closed-flags; [make] appends
      an open channel, [close] sets the flag.
    - The messaging client and the file system are oracles inside
      [World]; every request handed to the client is logged in [sent].
    - Terminal output is kept as events ([out]); the banner text and the
      ANSI colours of [runOnce] are not spelled out. *)

From Stdlib Require Import ZArith QArith Lia Ascii String.
From stdpp Require Import gmap strings list pretty.

Local Open Scope string_scope.
Local Open Scope Z_scope.

(** ** Errors *)

(** Go's [error] values that the scheduler builds: [fmt.Errorf] texts and
    the [APIError] struct. *)
Inductive error : Type :=
| errorString (s : string)
| APIError (Op : string) (Status : Z) (Message : string).

(** [func (e *APIError) Error() string] *)
Definition Error (e : error) : string :=
  match e with
  | errorString s => s
  | APIError op st msg => op ++ " failed (status " ++ pretty st ++ "): " ++ msg
  end.

(** ** The outside world *)

Record TelegramClient : Type := mkClient { Token : string }.

(** The requests the scheduler hands to the messaging client. *)
Inductive Request : Type :=
| SendMessageRaw (chatID : Z) (text : string)
| SendAnimationRaw (chatID : Z) (filePath caption : string)
| SendVoiceRaw (chatID : Z) (filePath caption : string)
| SendVideoRaw (chatID : Z) (filePath caption : string)
| FetchUpdatesRaw (params : string).

(** What a [...Raw] method returns, [([]byte, int, error)], and how long
    the call blocked. *)
Record Response : Type := mkResponse {
  body : string;
  code : Z;
  failure : option error;
  latency : Z
}.

Record World : Type := mkWorld {
  clock : Z;                                   (* time.Now(), in ns *)
  stat : string -> bool;                       (* os.Stat(path) succeeds *)
  openErr : string -> option string;           (* os.OpenFile failure text *)
  remote : TelegramClient -> list Request -> Request -> Response;
  sent : list Request                          (* requests made so far *)
}.

Definition setClock (t : Z) (w : World) : World :=
  mkWorld t (stat w) (openErr w) (remote w) (sent w).

(** One call of a client method: the oracle answers from the history,
    the request is logged and the clock moves by the call's latency. *)
Definition clientDo (c : TelegramClient) (r : Request) (w : World)
  : (string * Z * option error) * World :=
  let a := remote w c (sent w) r in
  ((body a, code a, failure a),
   mkWorld (clock w + Z.max 0 (latency a)) (stat w) (openErr w) (remote w)
           (sent w ++ [r])).

(** [func checkFileExists(filePath string) bool] *)
Definition checkFileExists (filePath : string) (w : World) : bool :=
  stat w filePath.

(** ** The scheduler *)

(** [type apiCallFunc func() (string, int, error)]: a closure that acts
    on the outside world. *)
Definition apiResult : Type := (string * Z * option error)%type.
Definition apiCallFunc : Type := World -> apiResult * World.

Definition chan : Type := nat.

Record Scheduler : Type := mkScheduler {
  chatID : Z;
  client : TelegramClient;
  intervalMinutes : Q;
  runCount : Z;
  retryCount : Z;
  retryDelaySec : Z;
  running : bool;
  stopChan : chan;
  wg : Z;                                       (* sync.WaitGroup counter *)
  apiCalls : gmap string apiCallFunc;
  apiOrder : list string
}.

(** What the scheduler writes: terminal lines and log records.
    [EvAttempt] and [EvWait] are bookkeeping of the embedding: one is
    recorded at each call of the operation, with what it returned, and
    one at each timed wait, with its duration and whether the stop
    signal cut it short. *)
Inductive Event : Type :=
| EvInfo (msg : string)                                    (* logger.Info *)
| EvTerminal (ts : Z) (level msg : string)                 (* logTerminal *)
| EvAttempt (apiName : string) (attempt : Z) (st : Z) (err : option error)
| EvWait (d : Z) (interrupted : bool)
| EvRunStarted (ts : Z)
| EvRow (i : Z) (apiName msg : string) (ok : bool)
| EvRunCompleted
| EvGo                                                     (* go s.runLoop() *)
| EvLoopReturned.                                          (* runLoop returns *)

(** The whole state: the scheduler object, the channel heap, the world
    and the output so far. *)
Record Machine : Type := mkMachine {
  sched : Scheduler;
  chans : list bool;
  world : World;
  out : list Event
}.

Definition setSched (s : Scheduler) (m : Machine) : Machine :=
  mkMachine s (chans m) (world m) (out m).
Definition setWorld (w : World) (m : Machine) : Machine :=
  mkMachine (sched m) (chans m) w (out m).
Definition emit (e : Event) (m : Machine) : Machine :=
  mkMachine (sched m) (chans m) (world m) (out m ++ [e]).

Definition setLifecycle (r : bool) (c : chan) (n : Z) (s : Scheduler) : Scheduler :=
  mkScheduler (chatID s) (client s) (intervalMinutes s) (runCount s)
    (retryCount s) (retryDelaySec s) r c n (apiCalls s) (apiOrder s).

(** [close(s.stopChan)] and the receive [<-s.stopChan] being ready.
    Closing a channel a second time panics in Go.  [Stop] closes only
    while [running] is set, so in the states in which the channel is
    closed only if [running] is cleared ([closedMeansStopped] below,
    which every operation keeps) no second close happens; here the
    flag is simply set. *)
Definition closeChan (c : chan) (m : Machine) : Machine :=
  mkMachine (sched m) (<[c := true]> (chans m)) (world m) (out m).
Definition isClosed (m : Machine) : bool :=
  bool_decide (chans m !! stopChan (sched m) = Some true).

(** [func (s *Scheduler) logTerminal(level, msg string)]: a terminal line
    and a log record with the same text. *)
Definition logTerminal (level msg : string) (m : Machine) : Machine :=
  emit (EvTerminal (clock (world m)) level msg) m.

(** ** API registry *)

(** [func (s *Scheduler) RegisterAPI(name string, fn apiCallFunc)] *)
Definition RegisterAPI (name : string) (fn : apiCallFunc) (s : Scheduler) : Scheduler :=
  mkScheduler (chatID s) (client s) (intervalMinutes s) (runCount s)
    (retryCount s) (retryDelaySec s) (running s) (stopChan s) (wg s)
    (<[name := fn]> (apiCalls s)) (apiOrder s ++ [name]).

(** ** Start / Stop *)

(** [func (s *Scheduler) Start() error] *)
Definition Start (m : Machine) : option error * Machine :=
  if running (sched m) then (Some (errorString "scheduler already running"), m)
  else
    let c := length (chans m) in                         (* make(chan struct{}) *)
    let s := setLifecycle true c (wg (sched m) + 1) (sched m) in
    let m := mkMachine s (chans m ++ [false]) (world m) (out m) in
    let m := logTerminal "INF" "🚀 Scheduler started" m in
    (None, emit EvGo m).

(** The part of [Stop] under the mutex. *)
Definition stopLocked (m : Machine) : Machine :=
  if negb (running (sched m)) then m
  else
    let s := sched m in
    closeChan (stopChan s) (setSched (setLifecycle false (stopChan s) (wg s) s) m).

(** [s.wg.Wait()] followed by the last line of [Stop]; [None] while the
    counter is not zero. *)
Definition stopJoin (m : Machine) : option Machine :=
  if wg (sched m) =? 0 then Some (logTerminal "INF" "✅ Scheduler stopped" m)
  else None.

Inductive StopResult : Type :=
| StopReturned (m : Machine)
| StopParked (m : Machine).        (* blocked in s.wg.Wait() *)

(** [func (s *Scheduler) Stop()] *)
Definition Stop (m : Machine) : StopResult :=
  if negb (running (sched m)) then StopReturned m
  else
    let m := stopLocked m in
    let m := logTerminal "INF" "🛑 Scheduler stopping..." m in
    match stopJoin m with
    | Some m' => StopReturned m'
    | None => StopParked m
    end.

(** [func (s *Scheduler) IsRunning() bool] *)
Definition IsRunning (m : Machine) : bool := running (sched m).

(** ** The caller's goroutine, seen from the loop *)

(** [stopAt]: the instant at which another goroutine runs [Stop()]
    ([None]: nobody does).  [tie t]: when both cases of a [select] are
    ready at instant [t], whether Go's random choice takes the timer. *)
Record Env : Type := mkEnv {
  stopAt : option Z;
  tie : Z -> bool
}.

(** The critical section of the caller's [Stop()], applied once its
    instant has passed.  The two terminal lines of that [Stop()] belong
    to the caller and are not added to the loop's output. *)
Definition externalStop (env : Env) (m : Machine) : Machine :=
  match stopAt env with
  | Some t => if t <=? clock (world m) then stopLocked m else m
  | None => m
  end.

(** [select { case <-s.stopChan: ... default: }] *)
Definition stopRequested (env : Env) (m : Machine) : bool * Machine :=
  let m := externalStop env m in (isClosed m, m).

(** [select { case <-timer: ... case <-s.stopChan: ... }] with a timer
    armed for [d] ns at the moment the select starts.  Returns [true]
    when the stop case was taken. *)
Definition waitOrStop (env : Env) (d : Z) (m : Machine) : bool * Machine :=
  let m0 := externalStop env m in
  let t0 := clock (world m0) in
  let deadline := t0 + Z.max 0 d in
  if isClosed m0 then
    if (d <=? 0) && tie env t0 then (false, emit (EvWait d false) m0)
    else (true, emit (EvWait d true) m0)
  else
    let wake := match stopAt env with
                | Some t => if t0 <? t then Z.min t deadline else deadline
                | None => deadline
                end in
    let m1 := externalStop env (setWorld (setClock wake (world m0)) m0) in
    if isClosed m1 && ((wake <? deadline) || negb (tie env wake))
    then (true, emit (EvWait d true) m1)
    else (false, emit (EvWait d false) (setWorld (setClock deadline (world m1)) m1)).

(** ** Retry *)

Definition second : Z := 1000000000.
Definition minute : Z := 60 * second.

(** [time.Duration(float64(s.retryDelaySec)*math.Pow(2, float64(attempt))) * time.Second].
    The float product of an integer and a power of two is exact while
    it stays below 2^63, and the multiplication by [time.Second] does
    not overflow below 2^63 ns; the embedding covers that range
    ([delayInRange] below). *)
Definition backoffDelay (delaySec attempt : Z) : Z :=
  delaySec * 2 ^ attempt * second.

(** The body of the [for attempt := ...; attempt <= s.retryCount; attempt++]
    loop, with [k] iterations left. *)
Fixpoint retryLoop (env : Env) (apiName : string) (fn : apiCallFunc)
    (k : nat) (attempt : Z) (lastErr : option error) (status : Z)
    (m : Machine) : apiResult * Machine :=
  match k with
  | O => (("", status, lastErr), m)
  | S k' =>
    let (stopped, m) := stopRequested env m in
    if stopped then (("", 0, Some (errorString "stopped")), m)
    else
      let '((res, st, err), w) := fn (world m) in
      let m := emit (EvAttempt apiName attempt st err) (setWorld w m) in
      match err with
      | None => ((res, st, None), m)
      | Some e =>
        let s := sched m in
        let m := logTerminal "ERR"
                   ("⚠️ " ++ apiName ++ " attempt " ++ pretty (attempt + 1) ++ "/"
                    ++ pretty (retryCount s + 1) ++ " failed: " ++ Error e) m in
        let delay := backoffDelay (retryDelaySec s) attempt in
        let (stopped, m) := waitOrStop env delay m in
        if stopped then (("", st, Some (errorString "stopped during retry")), m)
        else retryLoop env apiName fn k' (attempt + 1) (Some e) st m
      end
  end.

(** [func (s *Scheduler) callWithRetry(apiName string, fn apiCallFunc) (string, int, error)] *)
Definition callWithRetry (env : Env) (apiName : string) (fn : apiCallFunc)
    (m : Machine) : apiResult * Machine :=
  retryLoop env apiName fn (Z.to_nat (retryCount (sched m) + 1)) 0 None 0 m.

(** ** runOnce *)

(** The body of [for i, apiName := range s.apiOrder]; [None] is the
    panic of calling a name that has no entry in [apiCalls]. *)
Fixpoint runOps (env : Env) (i : Z) (names : list string) (m : Machine)
  : option (bool * Machine) :=
  match names with
  | [] => Some (true, m)
  | apiName :: rest =>
    match apiCalls (sched m) !! apiName with
    | None => None
    | Some fn =>
      let '((res, status, err), m) := callWithRetry env apiName fn m in
      let msg := match err with
                 | Some e => Error e ++ " (status=" ++ pretty status ++ ")"
                 | None => res ++ " (status=" ++ pretty status ++ ")"
                 end in
      let m := emit (EvRow i apiName msg (bool_decide (err = None))) m in
      let (stopped, m) := stopRequested env m in
      if stopped then Some (false, m)
      else
        let s := sched m in
        let '(_, w) := clientDo (client s)
                         (SendMessageRaw (chatID s) (apiName ++ ": " ++ msg))
                         (world m) in
        runOps env (i + 1) rest (setWorld w m)
    end
  end.

(** [func (s *Scheduler) runOnce()] *)
Definition runOnce (env : Env) (m : Machine) : option Machine :=
  let m := emit (EvRunStarted (clock (world m))) m in
  match runOps env 0 (apiOrder (sched m)) m with
  | None => None
  | Some (true, m) => Some (emit EvRunCompleted m)
  | Some (false, m) => Some m
  end.

(** ** runLoop *)

(** [time.Duration(s.intervalMinutes * float64(time.Minute))]: the
    product truncated toward zero.  The interval is taken as an exact
    rational: the rounding of the float product and the range of
    [int64] are not part of the embedding, and the properties below
    hold for every value of the interval. *)
Definition intervalDuration (q : Q) : Z :=
  Z.quot (Qnum q * minute) (Z.pos (Qden q)).

Inductive LoopResult : Type :=
| LoopReturned (m : Machine)     (* runLoop returned and wg.Done() ran *)
| LoopParked (m : Machine)       (* blocked inside its own s.Stop() *)
| LoopPanicked
| LoopOutOfFuel (m : Machine).

(** [defer s.wg.Done()] *)
Definition wgDone (m : Machine) : LoopResult :=
  let s := sched m in
  if wg s - 1 <? 0 then LoopPanicked
  else LoopReturned
         (emit EvLoopReturned
            (setSched (setLifecycle (running s) (stopChan s) (wg s - 1) s) m)).

(** The [for { select { ... } }] of [runLoop], entered with the timer
    just armed. *)
Fixpoint loopFrom (env : Env) (fuel : nat) (interval count : Z) (m : Machine)
  : LoopResult :=
  match fuel with
  | O => LoopOutOfFuel m
  | S fuel' =>
    let (stopped, m) := waitOrStop env interval m in
    if stopped then
      wgDone (logTerminal "INF" "⏹ Received stop signal, exiting runLoop" m)
    else
      match runOnce env m with
      | None => LoopPanicked
      | Some m =>
        let count := count + 1 in
        let n := runCount (sched m) in
        if (0 <? n) && (n <=? count) then
          let m := logTerminal "INF"
                     ("🏁 Reached runCount limit " ++ pretty n ++ ", stopping loop") m in
          match Stop (externalStop env m) with
          | StopReturned m => wgDone m
          | StopParked m => LoopParked m
          end
        else loopFrom env fuel' interval count m
      end
  end.

(** [func (s *Scheduler) runLoop()] *)
Definition runLoop (env : Env) (fuel : nat) (m : Machine) : LoopResult :=
  match runOnce env m with
  | None => LoopPanicked
  | Some m =>
    loopFrom env fuel (intervalDuration (intervalMinutes (sched m))) 1 m
  end.

(** ** API calls and the constructor *)

(** [strconv.ParseInt(s, 10, 64)] of Go's standard library. *)
Inductive NumError : Type := ErrSyntax | ErrRange.

Definition digitOf (c : ascii) : option Z :=
  let n := Z.of_nat (nat_of_ascii c) in
  if (48 <=? n) && (n <=? 57) then Some (n - 48) else None.

Fixpoint parseDigits (s : string) (n : Z) : Z + NumError :=
  match s with
  | EmptyString => inl n
  | String c s' =>
    match digitOf c with
    | None => inr ErrSyntax
    | Some d =>
      if 1844674407370955162 <=? n then inr ErrRange
      else
        let n1 := n * 10 + d in
        if 18446744073709551615 <? n1 then inr ErrRange else parseDigits s' n1
    end
  end.

Definition ParseUint (s : string) : Z + NumError :=
  match s with
  | EmptyString => inr ErrSyntax
  | _ => parseDigits s 0
  end.

Definition ParseInt (s : string) : Z + NumError :=
  match s with
  | EmptyString => inr ErrSyntax
  | String c s' =>
    let neg := Ascii.eqb c "-"%char in
    let digits := if Ascii.eqb c "+"%char || neg then s' else s in
    match ParseUint digits with
    | inr e => inr e
    | inl un =>
      if negb neg && (2 ^ 63 <=? un) then inr ErrRange
      else if neg && (2 ^ 63 <? un) then inr ErrRange
      else inl (if neg then - un else un)
    end
  end.

(** The text of a [*strconv.NumError] ([strconv.Quote] is taken to leave
    the input as it is between the quotes). *)
Definition numErrorText (s : string) (e : NumError) : string :=
  let q := String "034"%char EmptyString in
  "strconv.ParseInt: parsing " ++ q ++ s ++ q ++ ": " ++
  match e with
  | ErrSyntax => "invalid syntax"
  | ErrRange => "value out of range"
  end.

Section Runtime.

(** Library functions the API calls go through: [time.Time.Format]
    with the RFC 3339 layout, and [json.Unmarshal] into the
    [{ok, result}] struct, giving the [ok] flag and [len(result)] or
    the text of the decoding error. *)
Variable rfc3339 : Z -> string.
Variable unmarshalUpdates : string -> string + (bool * Z).

(** [func (s *Scheduler) callSendMessage() (string, int, error)] *)
Definition callSendMessage (chatID : Z) (c : TelegramClient) : apiCallFunc :=
  fun w =>
    let text := "🚀 Scheduler: Test message sent at " ++ rfc3339 (clock w) in
    let '((_, status, err), w) := clientDo c (SendMessageRaw chatID text) w in
    match err with
    | Some e => (("", status, Some (APIError "SendMessage" status (Error e))), w)
    | None => (("SendMessage ok", status, None), w)
    end.

(** [func (s *Scheduler) callSendGIF() (string, int, error)] *)
Definition callSendGIF (chatID : Z) (c : TelegramClient) : apiCallFunc :=
  fun w =>
    let filePath := "./uploads/happy.gif" in
    if negb (checkFileExists filePath w)
    then (("skip sendAnimation - file not found", 0, None), w)
    else
      let '((_, status, err), w) :=
        clientDo c (SendAnimationRaw chatID filePath "🎉 Scheduler test GIF") w in
      match err with
      | Some e => (("", status, Some (APIError "SendGIF" status (Error e))), w)
      | None => (("sendAnimation sent: " ++ filePath, status, None), w)
      end.

(** [func (s *Scheduler) callSendVoice() (string, int, error)] *)
Definition callSendVoice (chatID : Z) (c : TelegramClient) : apiCallFunc :=
  fun w =>
    let filePath := "./uploads/test.ogg" in
    if negb (checkFileExists filePath w)
    then (("skip sendVoice - file not found", 0, None), w)
    else
      let '((_, status, err), w) :=
        clientDo c (SendVoiceRaw chatID filePath "🎙 Scheduler test voice") w in
      match err with
      | Some e => (("", status, Some (APIError "SendVoice" status (Error e))), w)
      | None => (("sendVoice sent: " ++ filePath, status, None), w)
      end.

(** [func (s *Scheduler) callSendVideo() (string, int, error)] *)
Definition callSendVideo (chatID : Z) (c : TelegramClient) : apiCallFunc :=
  fun w =>
    let filePath := "./uploads/test_small.mp4" in
    if negb (checkFileExists filePath w)
    then (("skip sendVideo - file not found", 0, None), w)
    else
      let '((_, status, err), w) :=
        clientDo c (SendVideoRaw chatID filePath "🎥 Scheduler test video") w in
      match err with
      | Some e => (("", status, Some (APIError "SendVideo" status (Error e))), w)
      | None => (("sendVideo sent: " ++ filePath, status, None), w)
      end.

(** [func (s *Scheduler) callGetUpdates() (string, int, error)] *)
Definition callGetUpdates (c : TelegramClient) : apiCallFunc :=
  fun w =>
    let params := "?offset=0&limit=100&timeout=0" in
    let '((body, status, err), w) := clientDo c (FetchUpdatesRaw params) w in
    match err with
    | Some e => (("", status, Some (APIError "GetUpdates" status (Error e))), w)
    | None =>
      match unmarshalUpdates body with
      | inl txt => (("", status, Some (APIError "GetUpdates" status txt)), w)
      | inr (ok, count) =>
        if negb ok
        then (("", status,
               Some (APIError "GetUpdates" status "telegram API returned not ok")), w)
        else (("GetUpdates ok: " ++ pretty count ++ " new", status, None), w)
      end
    end.

(** [func NewScheduler(chatIDStr string, client *telegram.TelegramClient,
    intervalMinutes float64, runCount, retryCount, retryDelaySec int,
    logFilePath string)], returning the scheduler or an error.  Opening
    the log with [O_CREATE] leaves the file in place. *)
Definition NewScheduler (chatIDStr : string) (c : TelegramClient)
    (intervalMinutes : Q) (runCount retryCount retryDelaySec : Z)
    (logFilePath : string) (w : World) : Machine + error :=
  match ParseInt chatIDStr with
  | inr e => inr (errorString ("invalid chatID: " ++ numErrorText chatIDStr e))
  | inl chatID =>
    match openErr w logFilePath with
    | Some txt => inr (errorString ("cannot open log file: " ++ txt))
    | None =>
      let w := mkWorld (clock w)
                 (fun p => if String.eqb p logFilePath then true else stat w p)
                 (openErr w) (remote w) (sent w) in
      let s := mkScheduler chatID c intervalMinutes runCount retryCount
                 retryDelaySec false 0%nat 0 ∅ [] in
      let s := RegisterAPI "SendMessage" (callSendMessage chatID c) s in
      let s := RegisterAPI "SendGIF" (callSendGIF chatID c) s in
      let s := RegisterAPI "SendVoice" (callSendVoice chatID c) s in
      let s := RegisterAPI "SendVideo" (callSendVideo chatID c) s in
      let s := RegisterAPI "GetUpdates" (callGetUpdates c) s in
      inl (mkMachine s [false] w [EvInfo "Scheduler initialized"])
    end
  end.

End Runtime.

(** ** Reading the output *)

Definition isRunStarted (e : Event) : bool :=
  match e with EvRunStarted _ => true | _ => false end.

(** Number of cycles begun. *)
Definition cycles (l : list Event) : nat := length (List.filter isRunStarted l).

(** The attempt records, [(attempt, status, failure)], in order. *)
Fixpoint attemptsOf (l : list Event) : list (Z * Z * option error) :=
  match l with
  | [] => []
  | EvAttempt _ a st err :: l' => (a, st, err) :: attemptsOf l'
  | _ :: l' => attemptsOf l'
  end.

(** The waits, [(duration, interrupted)], in order. *)
Fixpoint waitsOf (l : list Event) : list (Z * bool) :=
  match l with
  | [] => []
  | EvWait d i :: l' => (d, i) :: waitsOf l'
  | _ :: l' => waitsOf l'
  end.

(** The names of the rows of a cycle, in order. *)
Fixpoint rowsOf (l : list Event) : list string :=
  match l with
  | [] => []
  | EvRow _ name _ _ :: l' => name :: rowsOf l'
  | _ :: l' => rowsOf l'
  end.

(** [a, a+1, ..., a+k-1] *)
Fixpoint upFrom (a : Z) (k : nat) : list Z :=
  match k with
  | O => []
  | S k' => a :: upFrom (a + 1) k'
  end.

(** Every name of the execution order has a callable. *)
Definition registered (s : Scheduler) : bool :=
  forallb (fun name => bool_decide (is_Some (apiCalls s !! name))) (apiOrder s).

(** The stop channel is closed only once [running] has been cleared. *)
Definition closedMeansStopped (m : Machine) : Prop :=
  isClosed m = true -> running (sched m) = false.

(** An operation that fails on every invocation. *)
Definition alwaysFails (fn : apiCallFunc) : Prop :=
  forall w, snd (fst (fn w)) <> None.

(** ** Sample configurations *)

Definition sampleWorld : World :=
  mkWorld 0 (fun _ => false) (fun _ => None)
    (fun _ _ _ => mkResponse "{}" 200 None 1000) [].

Definition quietEnv : Env := mkEnv None (fun _ => true).

Definition opDown : apiCallFunc :=
  fun w => (("", 503, Some (errorString "unavailable")), w).
Definition opUp : apiCallFunc :=
  fun w => (("fine", 200, None), w).

Definition sampleScheduler (runs retries delay : Z) : Scheduler :=
  mkScheduler 7 (mkClient "token") (1 # 10) runs retries delay
    false 0%nat 0 ∅ [].

Definition sampleMachine (runs retries delay : Z) : Machine :=
  mkMachine (RegisterAPI "A" opUp (sampleScheduler runs retries delay))
    [false] sampleWorld [].

(** The sample machine after a successful [Start]. *)
Definition startedMachine (runs retries delay : Z) : Machine :=
  snd (Start (sampleMachine runs retries delay)).

(** Stand-ins for the time formatter and the JSON decoder. *)
Definition sampleFormat : Z -> string := fun _ => "2025-01-01T00:00:00Z".
Definition sampleUnmarshal : string -> string + (bool * Z) :=
  fun _ => inr (true, 0).

(** The scheduler built by the constructor, as [main] builds it, with
    a ceiling of [runs] cycles, and then started. *)
Definition builtMachine (runs : Z) : Machine :=
  match NewScheduler sampleFormat sampleUnmarshal "123" (mkClient "token")
          (1 # 10) runs 2 5 "logs/api_check.log" sampleWorld with
  | inl m => snd (Start m)
  | inr _ => startedMachine runs 2 5
  end.

(** The five names the constructor registers, in order. *)
Definition constructorOrder : list string :=
  ["SendMessage"; "SendGIF"; "SendVoice"; "SendVideo"; "GetUpdates"].

(** A caller that runs [Stop()] at instant [t]. *)
Definition stopEnv (t : Z) : Env := mkEnv (Some t) (fun _ => true).

(** ** Relations between states *)

(** The scheduler [s'] is [s] with, at most, another [running] flag:
    configuration, registry, stop channel and wait group are the same. *)
Definition onlyRunning (s s' : Scheduler) : Prop :=
  s' = setLifecycle (running s') (stopChan s) (wg s) s.

(** What the background goroutine may do to the shared state between
    two of its steps: clear or keep [running] (through the caller's
    [Stop()]), keep the number of channels, and add output. *)
Definition evolves (m m' : Machine) : Prop :=
  onlyRunning (sched m) (sched m')
  /\ length (chans m') = length (chans m)
  /\ exists evs : list Event, out m' = (out m ++ evs)%list.

(** An attempt record of a failed attempt. *)
Definition failedAttempt (r : Z * Z * option error) : Prop := snd r <> None.

(** The state in which a run with a ceiling of one cycle leaves the
    scheduler built by the constructor. *)
Definition afterCeiling : Machine :=
  match runLoop quietEnv 1 (builtMachine 1) with
  | LoopReturned m | LoopParked m | LoopOutOfFuel m => m
  | LoopPanicked => builtMachine 1
  end.

(** The failure, if any, is an [APIError] of operation [op] with
    status [st]. *)
Definition apiErrorOf (op : string) (st : Z) (err : option error) : Prop :=
  match err with
  | None => True
  | Some (APIError o s _) => o = op /\ s = st
  | Some (errorString _) => False
  end.

(** ** Identifiers as text *)

(** [strconv.FormatInt(i, 10)] of Go's standard library: decimal digits
    without leading zeros, with a leading minus sign for negatives. *)
Definition FormatInt (i : Z) : string := pretty i.

(** [func ChatIDFromString(s string) int64] of the [telegram] package;
    the line it prints on failure is not recorded. *)
Definition ChatIDFromString (s : string) : Z :=
  match ParseInt s with
  | inl id => id
  | inr _ => 0
  end.

(** ** The messaging client *)

(** The methods of [TelegramClient] that the scheduler reaches, over
    an HTTP transport.  What they print and log is not recorded. *)
Module Raw.

Record HttpResponse : Type := mkHttpResponse {
  StatusCode : Z;
  Status : string;                  (* resp.Status, e.g. 200 OK *)
  Body : string;                    (* what io.ReadAll gave *)
  ReadErr : option error            (* the error of io.ReadAll *)
}.

Inductive HttpCall : Type :=
| HttpPost (url contentType body : string)
| HttpGet (url : string).

(** [http.Post] and [http.Get]: the transport's error or a response. *)
Definition Net : Type := HttpCall -> error + HttpResponse.

(** What a method returns: [([]byte, int, error)], with [None] for a
    nil slice. *)
Definition rawResult : Type := (option string * Z * option error)%type.

(** [func (c *TelegramClient) buildURL(method string) string] *)
Definition buildURL (c : TelegramClient) (method : string) : string :=
  "https://api.telegram.org/bot" ++ Token c ++ "/" ++ method.

(** [func (c *TelegramClient) postJSON(method string, payload interface{})];
    [marshalled] is what [json.Marshal(payload)] gives. *)
Definition postJSON (net : Net) (c : TelegramClient) (method : string)
    (marshalled : error + string) : rawResult :=
  if String.eqb (Token c) "" then
    (None, 0, Some (errorString "⚠️ Telegram token empty"))
  else
    match marshalled with
    | inl e => (None, 0, Some (errorString ("marshal error: " ++ Error e)))
    | inr body =>
      match net (HttpPost (buildURL c method) "application/json" body) with
      | inl e =>
        (None, 0, Some (errorString (method ++ " request error: " ++ Error e)))
      | inr resp =>
        if (StatusCode resp <? 200) || (300 <=? StatusCode resp) then
          (Some (Body resp), StatusCode resp,
           Some (errorString ("❌ " ++ method ++ " failed, status: " ++ Status resp
                              ++ ", response: " ++ Body resp)))
        else (Some (Body resp), StatusCode resp, None)
      end
    end.

(** [text[:n]]: the first [n] bytes. *)
Fixpoint sliceTo (n : nat) (s : string) : string :=
  match n, s with
  | S n', String c s' => String c (sliceTo n' s')
  | _, _ => EmptyString
  end.

Definition maxLen : nat := 4000.

(** The text [SendMessageRaw] puts in the payload. *)
Definition clipText (text : string) : string :=
  if (maxLen <? String.length text)%nat
  then sliceTo maxLen text ++ String "010"%char "... [truncated]"
  else text.

(** [func (c *TelegramClient) SendMessageRaw(chatID int64, text string)];
    [marshal] is [json.Marshal] on the map with [chat_id] and [text]. *)
Definition SendMessageRaw (net : Net) (marshal : Z -> string -> error + string)
    (c : TelegramClient) (chatID : Z) (text : string) : rawResult :=
  postJSON net c "sendMessage" (marshal chatID (clipText text)).

(** [func (c *TelegramClient) FetchUpdatesRaw(params string)] *)
Definition FetchUpdatesRaw (net : Net) (c : TelegramClient) (params : string)
  : rawResult :=
  if String.eqb (Token c) "" then
    (None, 0, Some (errorString "⚠️ Telegram token empty"))
  else
    match net (HttpGet ("https://api.telegram.org/bot" ++ Token c
                        ++ "/getUpdates" ++ params)) with
    | inl e => (None, 0, Some e)
    | inr resp =>
      match ReadErr resp with
      | Some e => (None, StatusCode resp, Some e)
      | None =>
        if (StatusCode resp <? 200) || (300 <=? StatusCode resp) then
          (Some (Body resp), StatusCode resp,
           Some (errorString ("❌ getUpdates error: status " ++ Status resp
                              ++ ", body: " ++ Body resp)))
        else (Some (Body resp), StatusCode resp, None)
      end
    end.

End Raw.

(** A transport that answers every call with the same response. *)
Definition sampleNet (status : Z) : Raw.Net :=
  fun _ => inr (Raw.mkHttpResponse status "" "{}" None).

(** A row that reports success with an empty message and status 0. *)
Definition emptySuccessRow (e : Event) : Prop :=
  match e with
  | EvRow _ _ msg ok => msg = " (status=0)" /\ ok = true
  | _ => True
  end.

(** ** The retry executor, attempt by attempt *)

(** The backoff delays of the attempts up to [attempt] are inside the
    range of [time.Duration]: the configured delay is not negative and
    the largest product stays below 2^63 ns.  In that range the float
    product of the code is exact and nothing wraps around, so that
    [backoffDelay] is the delay the code waits for. *)
Definition delayInRange (delaySec attempt : Z) : Prop :=
  0 <= delaySec /\ backoffDelay delaySec attempt < 2 ^ 63.

(** The same environment with nobody calling [Stop()]. *)
Definition unstopped (env : Env) : Env := mkEnv None (tie env).

(** Where [callWithRetry] stands after [j] iterations of its loop that
    nobody has interrupted: the result so far and the state in which
    attempt number [j] begins. *)
Definition beforeAttempt (env : Env) (apiName : string) (fn : apiCallFunc)
    (j : nat) (m : Machine) : apiResult * Machine :=
  retryLoop (unstopped env) apiName fn j 0 None 0 m.

(** Status and failure of the first attempts (attempt number 0) made
    under [name], in order: one for every time [callWithRetry] has
    invoked the operation of that name for the first time. *)
Fixpoint firstAttemptsOf (name : string) (l : list Event) : list (Z * option error) :=
  match l with
  | [] => []
  | EvAttempt n a st err :: l' =>
    if String.eqb n name && (a =? 0)
    then (st, err) :: firstAttemptsOf name l'
    else firstAttemptsOf name l'
  | _ :: l' => firstAttemptsOf name l'
  end.

(** The status and the failure are those of an invocation of [fn]. *)
Definition returnedBy (fn : apiCallFunc) (p : Z * option error) : Prop :=
  exists w : World, snd (fst (fst (fn w))) = fst p /\ snd (fst (fn w)) = snd p.

(** An operation that is down during the first second and up afterwards. *)
Definition opFlaky : apiCallFunc :=
  fun w => if clock w <? second
           then (("", 503, Some (errorString "unavailable")), w)
           else (("fine", 200, None), w).


(** * Properties *)

(** ** Output bookkeeping *)

Lemma cycles_app (l1 l2 : list Event) :
  cycles (l1 ++ l2) = (cycles l1 + cycles l2)%nat.
Proof. unfold cycles. rewrite List.filter_app. apply length_app. Qed.

Lemma cycles_snoc (l : list Event) (e : Event) :
  cycles (l ++ [e]) = (cycles l + if isRunStarted e then 1 else 0)%nat.
Proof. rewrite cycles_app. unfold cycles. simpl. destruct (isRunStarted e); reflexivity. Qed.

Lemma attemptsOf_app (l1 l2 : list Event) :
  attemptsOf (l1 ++ l2) = (attemptsOf l1 ++ attemptsOf l2)%list.
Proof.
  induction l1 as [|e l1 IH]; [reflexivity|].
  destruct e; simpl; rewrite IH; reflexivity.
Qed.

Lemma waitsOf_app (l1 l2 : list Event) :
  waitsOf (l1 ++ l2) = (waitsOf l1 ++ waitsOf l2)%list.
Proof.
  induction l1 as [|e l1 IH]; [reflexivity|].
  destruct e; simpl; rewrite IH; reflexivity.
Qed.

Lemma rowsOf_app (l1 l2 : list Event) :
  rowsOf (l1 ++ l2) = (rowsOf l1 ++ rowsOf l2)%list.
Proof.
  induction l1 as [|e l1 IH]; [reflexivity|].
  destruct e; simpl; rewrite IH; reflexivity.
Qed.

Lemma upFrom_length (a : Z) (k : nat) : length (upFrom a k) = k.
Proof. revert a; induction k as [|k IH]; intros a; simpl; [|rewrite IH]; reflexivity. Qed.

Lemma upFrom_last (a : Z) (k : nat) :
  upFrom a (S k) = (upFrom a k ++ [a + Z.of_nat k])%list.
Proof.
  revert a; induction k as [|k IH]; intros a.
  - simpl. f_equal. lia.
  - change (upFrom a (S (S k))) with (a :: upFrom (a + 1) (S k)).
    rewrite IH. simpl. do 3 f_equal. lia.
Qed.

(** ** When nobody calls Stop *)

Lemma externalStop_quiet (env : Env) (m : Machine) :
  stopAt env = None -> externalStop env m = m.
Proof. intros H. unfold externalStop. rewrite H. reflexivity. Qed.

Lemma stopRequested_quiet (env : Env) (m : Machine) :
  stopAt env = None -> stopRequested env m = (isClosed m, m).
Proof. intros H. unfold stopRequested. rewrite externalStop_quiet; auto. Qed.

Lemma waitOrStop_quiet (env : Env) (d : Z) (m : Machine) :
  stopAt env = None -> isClosed m = false ->
  waitOrStop env d m =
  (false, emit (EvWait d false)
            (setWorld (setClock (clock (world m) + Z.max 0 d) (world m)) m)).
Proof.
  intros H Hc. unfold waitOrStop.
  rewrite !externalStop_quiet by assumption.
  rewrite Hc, H.
  change (isClosed (setWorld _ m)) with (isClosed m).
  rewrite Hc. reflexivity.
Qed.

(** The shape of an exhausted retry: with [k] iterations left, an
    operation that always fails is attempted [k] times, each attempt is
    followed by its backoff wait, and the status and failure of the
    last attempt are returned. *)
Lemma retryLoop_exhausted (env : Env) (apiName : string) (fn : apiCallFunc) :
  stopAt env = None -> alwaysFails fn ->
  forall (k : nat) (attempt : Z) (lastErr : option error) (status : Z) (m : Machine),
    isClosed m = false ->
    exists (m' : Machine) (evs : list Event) (st : Z) (err : option error),
      retryLoop env apiName fn k attempt lastErr status m = (("", st, err), m')
      /\ sched m' = sched m /\ chans m' = chans m
      /\ out m' = (out m ++ evs)%list
      /\ cycles evs = 0%nat
      /\ map (fun r => fst (fst r)) (attemptsOf evs) = upFrom attempt k
      /\ waitsOf evs =
         map (fun a => (backoffDelay (retryDelaySec (sched m)) a, false))
             (upFrom attempt k)
      /\ match k with
         | O => st = status /\ err = lastErr /\ evs = []
         | S j =>
           last (attemptsOf evs) = Some (attempt + Z.of_nat j, st, err)
           /\ err <> None
           /\ (exists w, snd (fst (fst (fn w))) = st /\ snd (fst (fn w)) = err)
           /\ last evs =
              Some (EvWait (backoffDelay (retryDelaySec (sched m))
                              (attempt + Z.of_nat j)) false)
         end.
Proof.
  intros Hq Hf. induction k as [|k IH]; intros attempt lastErr status m Hc.
  - exists m, [], status, lastErr. simpl. rewrite app_nil_r. auto 10.
  - cbn [retryLoop]. rewrite stopRequested_quiet by assumption. rewrite Hc.
    pose proof (Hf (world m)) as Hfw.
    destruct (fn (world m)) as [[[res st] err] w] eqn:Efn. simpl in Hfw.
    destruct err as [e|]; [clear Hfw|congruence].
    rewrite waitOrStop_quiet by (assumption || exact Hc).
    match goal with |- context [retryLoop _ _ _ k _ _ _ ?M] => set (m1 := M) end.
    destruct (IH (attempt + 1) (Some e) st m1 Hc)
      as (m' & evs & st' & err' & Hr & Hs & Hch & Ho & Hcy & Ha & Hw & Hk).
    rewrite Hr.
    eexists m', (_ :: _ :: _ :: evs), st', err'.
    split; [reflexivity|]. split; [exact Hs|]. split; [exact Hch|].
    split.
    { rewrite Ho. subst m1. simpl. rewrite <- !app_assoc. reflexivity. }
    split; [exact Hcy|].
    split; [simpl; rewrite Ha; reflexivity|].
    split; [simpl; rewrite Hw; reflexivity|].
    destruct k as [|j].
    + destruct Hk as (-> & -> & ->). simpl.
      rewrite Z.add_0_r.
      repeat split; try congruence.
      exists (world m). rewrite Efn. split; reflexivity.
    + destruct Hk as (Hl & Hne & Hw' & Hlast).
      assert (Hidx : attempt + 1 + Z.of_nat j = attempt + Z.of_nat (S j)) by lia.
      rewrite Hidx in Hl, Hlast.
      repeat split; try assumption.
      * simpl attemptsOf. rewrite last_cons, Hl. reflexivity.
      * rewrite !last_cons, Hlast. reflexivity.
Qed.

(** ** The retry executor *)



(** C3, as the code has it: an operation that always fails is followed
    by a backoff wait of [retryDelaySec * 2^attempt] seconds after every
    attempt, the last one included; with [retryCount = n] there are
    [n+1] attempts and [n+1] waits, and the last thing [callWithRetry]
    does before it returns the final failure is to wait
    [retryDelaySec * 2^n] seconds. *)
Theorem callWithRetry_waits_after_final_attempt
    (env : Env) (apiName : string) (fn : apiCallFunc) (m : Machine) (n : Z) :
  retryCount (sched m) = n -> 0 <= n ->
  stopAt env = None -> isClosed m = false ->
  alwaysFails fn ->
  exists (m' : Machine) (evs : list Event) (r : apiResult),
    callWithRetry env apiName fn m = (r, m')
    /\ out m' = (out m ++ evs)%list
    /\ Z.of_nat (length (attemptsOf evs)) = n + 1
    /\ waitsOf evs =
       map (fun a => (retryDelaySec (sched m) * 2 ^ a * second, false))
           (upFrom 0 (Z.to_nat (n + 1)))
    /\ Z.of_nat (length (waitsOf evs)) = n + 1
    /\ last evs = Some (EvWait (retryDelaySec (sched m) * 2 ^ n * second) false).
Proof.
  intros Hn Hpos Hq Hc Hf. unfold callWithRetry. rewrite Hn.
  replace (Z.to_nat (n + 1)) with (S (Z.to_nat n)) by lia.
  destruct (retryLoop_exhausted env apiName fn Hq Hf (S (Z.to_nat n)) 0 None 0 m Hc)
    as (m' & evs & st & err & Hr & _ & _ & Ho & _ & Ha & Hw & _ & _ & _ & Hlast).
  exists m', evs, ("", st, err). rewrite Hr.
  split; [reflexivity|]. split; [exact Ho|].
  split.
  { rewrite <- (length_map (fun r => fst (fst r))), Ha, upFrom_length. lia. }
  split; [exact Hw|].
  split.
  { rewrite Hw, length_map, upFrom_length. lia. }
  rewrite Hlast. unfold backoffDelay.
  replace (0 + Z.of_nat (Z.to_nat n)) with n by lia. reflexivity.
Qed.

Lemma callWithRetry_waits_after_final_attempt_witness :
  exists (m' : Machine) (evs : list Event) (r : apiResult),
    callWithRetry quietEnv "A" opDown (sampleMachine 0 0 5) = (r, m')
    /\ out m' = (out (sampleMachine 0 0 5) ++ evs)%list
    /\ Z.of_nat (length (attemptsOf evs)) = 0 + 1
    /\ waitsOf evs =
       map (fun a => (5 * 2 ^ a * second, false)) (upFrom 0 (Z.to_nat (0 + 1)))
    /\ Z.of_nat (length (waitsOf evs)) = 0 + 1
    /\ last evs = Some (EvWait (5 * 2 ^ 0 * second) false).
Proof.
  apply (callWithRetry_waits_after_final_attempt
           quietEnv "A" opDown (sampleMachine 0 0 5) 0);
    [reflexivity | lia | reflexivity | reflexivity | intros w; discriminate].
Defined.

Lemma isClosed_true (m : Machine) :
  isClosed m = true <-> chans m !! stopChan (sched m) = Some true.
Proof. unfold isClosed. apply bool_decide_eq_true. Qed.

Lemma isClosed_open (m : Machine) :
  chans m !! stopChan (sched m) = Some false -> isClosed m = false.
Proof.
  intros H. unfold isClosed. apply bool_decide_eq_false. congruence.
Qed.

(** The caller's [Stop()] touches neither the world nor the output. *)
Lemma stopLocked_frame (m : Machine) :
  world (stopLocked m) = world m /\ out (stopLocked m) = out m.
Proof. unfold stopLocked. destruct (running (sched m)); split; reflexivity. Qed.

Lemma externalStop_frame (env : Env) (m : Machine) :
  world (externalStop env m) = world m /\ out (externalStop env m) = out m.
Proof.
  unfold externalStop. destruct (stopAt env) as [t|]; [|split; reflexivity].
  destruct (t <=? clock (world m)); [apply stopLocked_frame|split; reflexivity].
Qed.

Lemma externalStop_early (env : Env) (m : Machine) (t : Z) :
  stopAt env = Some t -> clock (world m) < t -> externalStop env m = m.
Proof.
  intros H Hlt. unfold externalStop. rewrite H.
  destruct (Z.leb_spec t (clock (world m))); [lia|reflexivity].
Qed.

Lemma externalStop_due (env : Env) (m : Machine) (t : Z) :
  stopAt env = Some t -> t <= clock (world m) -> externalStop env m = stopLocked m.
Proof.
  intros H Hle. unfold externalStop. rewrite H.
  destruct (Z.leb_spec t (clock (world m))); [reflexivity|lia].
Qed.

(** Stopping a running scheduler whose channel is open closes it. *)
Lemma stopLocked_closes (m : Machine) :
  running (sched m) = true ->
  chans m !! stopChan (sched m) = Some false ->
  isClosed (stopLocked m) = true /\ running (sched (stopLocked m)) = false.
Proof.
  intros Hr Ho. unfold stopLocked. rewrite Hr. simpl. split; [|reflexivity].
  apply isClosed_true. simpl. apply list_lookup_insert_eq.
  apply lookup_lt_Some in Ho. exact Ho.
Qed.

(** C9: when the stop signal is already raised before the first attempt,
    [callWithRetry] returns the "stopped" failure and the operation is
    not invoked: the world and the output are as before. *)
Theorem callWithRetry_stopped_before_first_attempt
    (env : Env) (apiName : string) (fn : apiCallFunc) (m : Machine) :
  0 <= retryCount (sched m) ->
  fst (stopRequested env m) = true ->
  exists m' : Machine,
    callWithRetry env apiName fn m = (("", 0, Some (errorString "stopped")), m')
    /\ world m' = world m
    /\ out m' = out m
    /\ attemptsOf (out m') = attemptsOf (out m).
Proof.
  intros Hn Hs. unfold callWithRetry.
  replace (Z.to_nat (retryCount (sched m) + 1))
    with (S (Z.to_nat (retryCount (sched m)))) by lia.
  cbn [retryLoop].
  destruct (stopRequested env m) as [stopped m1] eqn:E. simpl in Hs. subst stopped.
  exists m1. split; [reflexivity|].
  unfold stopRequested in E. injection E as _ <-.
  destruct (externalStop_frame env m) as [Hw Ho].
  rewrite Hw, Ho. auto.
Qed.

(** One iteration of the retry loop: the attempt fails and the caller's
    [Stop()] arrives while the backoff wait is in progress.  The loop
    ends with the "stopped during retry" failure at the instant of the
    stop and makes no further attempt. *)
Lemma retryLoop_stop_in_wait
    (env : Env) (apiName : string) (fn : apiCallFunc) (k : nat)
    (attempt : Z) (lastErr : option error) (status : Z) (m : Machine)
    (t : Z) (res : string) (st : Z) (e : error) (w1 : World) :
  stopAt env = Some t ->
  running (sched m) = true ->
  chans m !! stopChan (sched m) = Some false ->
  clock (world m) < t ->
  fn (world m) = ((res, st, Some e), w1) ->
  clock w1 < t ->
  t < clock w1 + backoffDelay (retryDelaySec (sched m)) attempt ->
  exists (m' : Machine) (evs : list Event),
    retryLoop env apiName fn (S k) attempt lastErr status m
    = (("", st, Some (errorString "stopped during retry")), m')
    /\ clock (world m') = t
    /\ clock (world m') < clock w1 + backoffDelay (retryDelaySec (sched m)) attempt
    /\ sent (world m') = sent w1
    /\ out m' = (out m ++ evs)%list
    /\ attemptsOf evs = [(attempt, st, Some e)]
    /\ waitsOf evs = [(backoffDelay (retryDelaySec (sched m)) attempt, true)].
Proof.
  intros Hs Hrun Hopen Hnow Hfn Hw1 Hlt.
  cbn [retryLoop]. unfold stopRequested.
  rewrite (externalStop_early env m t Hs Hnow).
  rewrite (isClosed_open m Hopen), Hfn.
  set (d := backoffDelay (retryDelaySec (sched m)) attempt) in *.
  match goal with |- context [waitOrStop env _ ?M] => set (m2 := M) end.
  assert (Hd : 0 < d) by lia.
  unfold waitOrStop.
  change (retryDelaySec (sched (emit _ _))) with (retryDelaySec (sched m)).
  fold d.
  rewrite (externalStop_early env m2 t Hs) by exact Hw1.
  rewrite (isClosed_open m2) by exact Hopen.
  rewrite Hs.
  change (clock (world m2)) with (clock w1).
  destruct (Z.ltb_spec (clock w1) t) as [_|]; [|lia].
  rewrite Z.max_r by lia. rewrite Z.min_l by lia.
  match goal with |- context [externalStop env ?M] => set (m3 := M) end.
  rewrite (externalStop_due env m3 t Hs) by (simpl; lia).
  destruct (stopLocked_closes m3 Hrun Hopen) as [Hcl _].
  rewrite Hcl.
  destruct (Z.ltb_spec t (clock w1 + d)) as [_|]; [|lia].
  simpl.
  eexists _, [_; _; _]. split; [reflexivity|].
  destruct (stopLocked_frame m3) as [Hw Ho].
  simpl. rewrite Hw, Ho. simpl.
  split; [reflexivity|]. split; [lia|]. split; [reflexivity|].
  split; [rewrite <- !app_assoc; reflexivity|]. split; reflexivity.
Qed.

Lemma callWithRetry_stopped_before_first_attempt_witness :
  exists m' : Machine,
    callWithRetry (stopEnv 0) "A" opDown (startedMachine 0 2 5)
    = (("", 0, Some (errorString "stopped")), m')
    /\ world m' = world (startedMachine 0 2 5)
    /\ out m' = out (startedMachine 0 2 5)
    /\ attemptsOf (out m') = attemptsOf (out (startedMachine 0 2 5)).
Proof.
  apply (callWithRetry_stopped_before_first_attempt
           (stopEnv 0) "A" opDown (startedMachine 0 2 5));
    [vm_compute; discriminate | reflexivity].
Defined.

(** A backoff wait that is over before the caller's [Stop()] runs its
    full length. *)
Lemma waitOrStop_before_stop (env : Env) (d : Z) (m : Machine) (t : Z) :
  stopAt env = Some t -> isClosed m = false ->
  clock (world m) + Z.max 0 d < t ->
  waitOrStop env d m =
  (false, emit (EvWait d false)
            (setWorld (setClock (clock (world m) + Z.max 0 d) (world m)) m)).
Proof.
  intros Hs Hc Hlt. unfold waitOrStop.
  rewrite (externalStop_early env m t Hs) by lia.
  rewrite Hc, Hs.
  destruct (Z.ltb_spec (clock (world m)) t) as [_|]; [|lia].
  rewrite Z.min_r by lia.
  rewrite (externalStop_early env _ t Hs) by (simpl; lia).
  change (isClosed (setWorld _ m)) with (isClosed m).
  rewrite Hc. reflexivity.
Qed.

(** One iteration of the retry loop that fails and is not interrupted. *)
Lemma retryLoop_quiet_step
    (env : Env) (apiName : string) (fn : apiCallFunc) (k : nat)
    (attempt : Z) (lastErr : option error) (status : Z) (m : Machine)
    (res : string) (st : Z) (e : error) (w : World) :
  stopAt env = None -> isClosed m = false ->
  fn (world m) = ((res, st, Some e), w) ->
  retryLoop env apiName fn (S k) attempt lastErr status m
  = retryLoop env apiName fn k (attempt + 1) (Some e) st
      (emit (EvWait (backoffDelay (retryDelaySec (sched m)) attempt) false)
         (setWorld
            (setClock (clock w + Z.max 0 (backoffDelay (retryDelaySec (sched m)) attempt)) w)
            (logTerminal "ERR"
               ("⚠️ " ++ apiName ++ " attempt " ++ pretty (attempt + 1) ++ "/"
                ++ pretty (retryCount (sched m) + 1) ++ " failed: " ++ Error e)
               (emit (EvAttempt apiName attempt st (Some e)) (setWorld w m))))).
Proof.
  intros Hq Hc Hfn. cbn [retryLoop].
  rewrite stopRequested_quiet by assumption. rewrite Hc, Hfn.
  rewrite waitOrStop_quiet by (assumption || exact Hc).
  reflexivity.
Qed.

(** As long as the attempts fail and their waits are over before the
    caller's [Stop()], the retry loop runs as if nobody stopped it:
    after [j] such iterations it stands at attempt [j], in the state
    the uninterrupted loop has reached, with [j] failed attempts
    recorded. *)
Lemma retryLoop_prefix (env : Env) (apiName : string) (fn : apiCallFunc) (t : Z) :
  stopAt env = Some t ->
  forall (j k : nat) (attempt : Z) (lastErr : option error) (status : Z)
         (m : Machine) (r : apiResult) (mj : Machine),
    isClosed m = false ->
    retryLoop (unstopped env) apiName fn j attempt lastErr status m = (r, mj) ->
    (j = 0%nat \/ snd r <> None) ->
    (forall i : nat, (i <= j)%nat ->
       clock (world (snd (retryLoop (unstopped env) apiName fn i attempt lastErr status m))) < t) ->
    (exists (lastErr' : option error) (status' : Z),
        retryLoop env apiName fn (j + k) attempt lastErr status m
        = retryLoop env apiName fn k (attempt + Z.of_nat j) lastErr' status' mj)
    /\ sched mj = sched m /\ chans mj = chans m
    /\ exists pre : list Event,
         out mj = (out m ++ pre)%list
         /\ length (attemptsOf pre) = j
         /\ Forall failedAttempt (attemptsOf pre).
Proof.
  intros Hs. induction j as [|j IH]; intros k attempt lastErr status m r mj Hc Hrun Hfail Hclk.
  - simpl in Hrun. injection Hrun as <- <-.
    split; [exists lastErr, status; simpl; rewrite Z.add_0_r; reflexivity|].
    split; [reflexivity|]. split; [reflexivity|].
    exists []. rewrite app_nil_r. split; [reflexivity|]. split; [reflexivity|constructor].
  - assert (Hq : stopAt (unstopped env) = None) by reflexivity.
    pose proof (Hclk 0%nat ltac:(lia)) as Hnow. simpl in Hnow.
    destruct (fn (world m)) as [[[res st] err] w] eqn:Efn.
    destruct err as [e|].
    + pose proof (Hclk 1%nat ltac:(lia)) as Hone.
      rewrite (retryLoop_quiet_step (unstopped env) apiName fn 0 attempt lastErr status m
                 res st e w Hq Hc Efn) in Hone.
      simpl in Hone.
      rewrite (retryLoop_quiet_step (unstopped env) apiName fn j attempt lastErr status m
                 res st e w Hq Hc Efn) in Hrun.
      match type of Hrun with retryLoop _ _ _ _ _ _ _ ?M = _ => set (m1 := M) in * end.
      destruct (IH k (attempt + 1) (Some e) st m1 r mj Hc Hrun) as (Heq & Hsc & Hch & pre & Ho & Hlen & Hf).
      { destruct Hfail as [Hz|Hne]; [discriminate|right; exact Hne]. }
      { intros i Hi. specialize (Hclk (S i) ltac:(lia)).
        rewrite (retryLoop_quiet_step (unstopped env) apiName fn i attempt lastErr status m
                   res st e w Hq Hc Efn) in Hclk.
        exact Hclk. }
      destruct Heq as (le' & st' & Heq).
      split.
      { exists le', st'.
        change (S j + k)%nat with (S (j + k)). cbn [retryLoop].
        unfold stopRequested.
        rewrite (externalStop_early env m t Hs Hnow), Hc, Efn.
        rewrite (waitOrStop_before_stop env _ _ t Hs) by (exact Hc || exact Hone).
        replace (attempt + Z.of_nat (S j)) with (attempt + 1 + Z.of_nat j) by lia.
        exact Heq. }
      split; [rewrite Hsc; reflexivity|]. split; [rewrite Hch; reflexivity|].
      eexists (_ :: _ :: _ :: pre).
      split; [rewrite Ho; subst m1; simpl; rewrite <- !app_assoc; reflexivity|].
      split; [simpl; rewrite Hlen; reflexivity|].
      simpl. constructor; [unfold failedAttempt; simpl; congruence|exact Hf].
    + exfalso. cbn [retryLoop] in Hrun.
      rewrite stopRequested_quiet in Hrun by assumption.
      rewrite Hc, Efn in Hrun. injection Hrun as <- _.
      destruct Hfail as [Hz|Hne]; [discriminate|apply Hne; reflexivity].
Qed.

(** C5: attempt number [j] of [callWithRetry] has just failed (the [j]
    attempts before it failed as well and their waits were over before
    the stop) and the caller's [Stop()] arrives while the backoff wait
    of [retryDelaySec * 2^j] seconds, a delay inside the range of
    [time.Duration], is in progress.  [callWithRetry] returns the
    "stopped during retry" failure with the status of attempt [j], at
    the instant of the stop, strictly before the backoff would have
    elapsed; attempt [j] is the last one made and the operation is not
    invoked again. *)
Theorem callWithRetry_stopped_during_backoff
    (env : Env) (apiName : string) (fn : apiCallFunc) (m : Machine)
    (j : nat) (t : Z) (r : apiResult) (mj : Machine)
    (res : string) (st : Z) (e : error) (w1 : World) :
  stopAt env = Some t ->
  running (sched m) = true ->
  chans m !! stopChan (sched m) = Some false ->
  Z.of_nat j <= retryCount (sched m) ->
  delayInRange (retryDelaySec (sched m)) (Z.of_nat j) ->
  beforeAttempt env apiName fn j m = (r, mj) ->
  (j = 0%nat \/ snd r <> None) ->
  (forall i : nat, (i <= j)%nat ->
     clock (world (snd (beforeAttempt env apiName fn i m))) < t) ->
  fn (world mj) = ((res, st, Some e), w1) ->
  clock w1 < t ->
  t < clock w1 + backoffDelay (retryDelaySec (sched m)) (Z.of_nat j) ->
  exists (m' : Machine) (pre evs : list Event),
    callWithRetry env apiName fn m
    = (("", st, Some (errorString "stopped during retry")), m')
    /\ clock (world m') = t
    /\ clock (world m') < clock w1 + backoffDelay (retryDelaySec (sched m)) (Z.of_nat j)
    /\ sent (world m') = sent w1
    /\ out m' = (out m ++ pre ++ evs)%list
    /\ length (attemptsOf pre) = j
    /\ Forall failedAttempt (attemptsOf pre)
    /\ attemptsOf evs = [(Z.of_nat j, st, Some e)]
    /\ waitsOf evs = [(backoffDelay (retryDelaySec (sched m)) (Z.of_nat j), true)].
Proof.
  intros Hs Hrun Hopen Hj _ Hpre Hfail Hclk Hfn Hw1 Hlt.
  unfold callWithRetry, beforeAttempt in *.
  replace (Z.to_nat (retryCount (sched m) + 1))
    with (j + S (Z.to_nat (retryCount (sched m) - Z.of_nat j)))%nat by lia.
  destruct (retryLoop_prefix env apiName fn t Hs j
              (S (Z.to_nat (retryCount (sched m) - Z.of_nat j))) 0 None 0 m r mj
              (isClosed_open m Hopen) Hpre Hfail Hclk)
    as ((le' & st' & Heq) & Hsc & Hch & pre & Ho & Hlen & Hf).
  rewrite Heq, Z.add_0_l.
  pose proof (Hclk j (Nat.le_refl j)) as Hnow. rewrite Hpre in Hnow. simpl in Hnow.
  destruct (retryLoop_stop_in_wait env apiName fn
              (Z.to_nat (retryCount (sched m) - Z.of_nat j)) (Z.of_nat j) le' st' mj
              t res st e w1 Hs) as (m' & evs & Hr & Hc1 & Hc2 & Hsent & Ho' & Ha & Hw);
    try assumption.
  { rewrite Hsc. exact Hrun. }
  { rewrite Hsc, Hch. exact Hopen. }
  { rewrite Hsc. exact Hlt. }
  rewrite Hsc in *.
  exists m', pre, evs. rewrite Hr, Ho', Ho, <- app_assoc. auto 10.
Qed.

Lemma callWithRetry_stopped_during_backoff_witness :
  exists (m' : Machine) (pre evs : list Event),
    callWithRetry (stopEnv 7000000000) "A" opDown (startedMachine 0 2 5)
    = (("", 503, Some (errorString "stopped during retry")), m')
    /\ clock (world m') = 7000000000
    /\ clock (world m')
       < clock (world (snd (beforeAttempt (stopEnv 7000000000) "A" opDown 1
                              (startedMachine 0 2 5))))
         + backoffDelay 5 (Z.of_nat 1)
    /\ sent (world m')
       = sent (world (snd (beforeAttempt (stopEnv 7000000000) "A" opDown 1
                             (startedMachine 0 2 5))))
    /\ out m' = (out (startedMachine 0 2 5) ++ pre ++ evs)%list
    /\ length (attemptsOf pre) = 1%nat
    /\ Forall failedAttempt (attemptsOf pre)
    /\ attemptsOf evs = [(Z.of_nat 1, 503, Some (errorString "unavailable"))]
    /\ waitsOf evs = [(backoffDelay 5 (Z.of_nat 1), true)].
Proof.
  apply (callWithRetry_stopped_during_backoff (stopEnv 7000000000) "A" opDown
           (startedMachine 0 2 5) 1 7000000000
           (fst (beforeAttempt (stopEnv 7000000000) "A" opDown 1 (startedMachine 0 2 5)))
           (snd (beforeAttempt (stopEnv 7000000000) "A" opDown 1 (startedMachine 0 2 5)))
           "" 503 (errorString "unavailable")
           (world (snd (beforeAttempt (stopEnv 7000000000) "A" opDown 1
                          (startedMachine 0 2 5))))).
  - reflexivity.
  - reflexivity.
  - reflexivity.
  - vm_compute. discriminate.
  - split; [vm_compute; discriminate | vm_compute; reflexivity].
  - apply surjective_pairing.
  - right. vm_compute. discriminate.
  - intros i Hi. destruct i as [|[|i]]; [vm_compute; reflexivity | vm_compute; reflexivity | lia].
  - reflexivity.
  - vm_compute. reflexivity.
  - vm_compute. reflexivity.
Defined.

(** An attempt that succeeds ends the retry at once. *)
Lemma callWithRetry_first_success
    (env : Env) (apiName : string) (fn : apiCallFunc) (m : Machine)
    (res : string) (st : Z) (w : World) :
  0 <= retryCount (sched m) ->
  fst (stopRequested env m) = false ->
  fn (world m) = ((res, st, None), w) ->
  callWithRetry env apiName fn m
  = ((res, st, None),
     emit (EvAttempt apiName 0 st None) (setWorld w (externalStop env m))).
Proof.
  intros Hn Hs Hfn. unfold callWithRetry.
  replace (Z.to_nat (retryCount (sched m) + 1))
    with (S (Z.to_nat (retryCount (sched m)))) by lia.
  cbn [retryLoop]. unfold stopRequested in *. simpl in Hs. rewrite Hs.
  destruct (externalStop_frame env m) as [Hw _]. rewrite Hw, Hfn. reflexivity.
Qed.

(** C10: when its file is missing, each media operation returns its
    "skip ... - file not found" message with status 0 and no failure and
    leaves the world, and so the list of client requests, as it was; run
    through [callWithRetry] it is attempted once, with no wait, no
    failure line and no request to the client. *)
Theorem media_calls_skip_missing_file
    (env : Env) (m : Machine) (chatID : Z) (c : TelegramClient) :
  0 <= retryCount (sched m) ->
  fst (stopRequested env m) = false ->
  let skipped (apiName path msg : string) (fn : apiCallFunc) :=
    stat (world m) path = false ->
    fn (world m) = ((msg, 0, None), world m)
    /\ exists m' : Machine,
         callWithRetry env apiName fn m = ((msg, 0, None), m')
         /\ out m' = (out m ++ [EvAttempt apiName 0 0 None])%list
         /\ sent (world m') = sent (world m) in
  skipped "SendGIF" "./uploads/happy.gif"
    "skip sendAnimation - file not found" (callSendGIF chatID c)
  /\ skipped "SendVoice" "./uploads/test.ogg"
       "skip sendVoice - file not found" (callSendVoice chatID c)
  /\ skipped "SendVideo" "./uploads/test_small.mp4"
       "skip sendVideo - file not found" (callSendVideo chatID c).
Proof.
  intros Hn Hs skipped. subst skipped. cbv beta.
  destruct (externalStop_frame env m) as [Hw Ho].
  assert (Hgen : forall apiName msg (fn : apiCallFunc),
             fn (world m) = ((msg, 0, None), world m) ->
             fn (world m) = ((msg, 0, None), world m)
             /\ exists m' : Machine,
                  callWithRetry env apiName fn m = ((msg, 0, None), m')
                  /\ out m' = (out m ++ [EvAttempt apiName 0 0 None])%list
                  /\ sent (world m') = sent (world m)).
  { intros apiName msg fn Hfn. split; [exact Hfn|].
    eexists. split; [apply callWithRetry_first_success; eassumption|].
    simpl. rewrite Ho. split; reflexivity. }
  split; [|split]; intros Hst; apply Hgen.
  - unfold callSendGIF, checkFileExists. rewrite Hst. reflexivity.
  - unfold callSendVoice, checkFileExists. rewrite Hst. reflexivity.
  - unfold callSendVideo, checkFileExists. rewrite Hst. reflexivity.
Qed.

Lemma media_calls_skip_missing_file_witness :
  callSendGIF 7 (mkClient "token") sampleWorld
  = (("skip sendAnimation - file not found", 0, None), sampleWorld)
  /\ exists m' : Machine,
       callWithRetry quietEnv "SendGIF" (callSendGIF 7 (mkClient "token"))
         (startedMachine 0 2 5)
       = (("skip sendAnimation - file not found", 0, None), m')
       /\ out m' = (out (startedMachine 0 2 5) ++ [EvAttempt "SendGIF" 0 0 None])%list
       /\ sent (world m') = sent sampleWorld.
Proof.
  apply (proj1 (media_calls_skip_missing_file quietEnv (startedMachine 0 2 5) 7
                  (mkClient "token") ltac:(vm_compute; discriminate) eq_refl)).
  reflexivity.
Defined.

(** ** One cycle when nobody calls Stop *)

(** Whatever the operation does, a retry leaves the scheduler and the
    channels alone and writes neither a cycle banner nor a row. *)
Lemma retryLoop_quiet_frame (env : Env) (apiName : string) (fn : apiCallFunc) :
  stopAt env = None ->
  forall (k : nat) (attempt : Z) (lastErr : option error) (status : Z) (m : Machine),
    isClosed m = false ->
    exists evs : list Event,
      out (snd (retryLoop env apiName fn k attempt lastErr status m))
      = (out m ++ evs)%list
      /\ cycles evs = 0%nat /\ rowsOf evs = []
      /\ sched (snd (retryLoop env apiName fn k attempt lastErr status m)) = sched m
      /\ chans (snd (retryLoop env apiName fn k attempt lastErr status m)) = chans m.
Proof.
  intros Hq. induction k as [|k IH]; intros attempt lastErr status m Hc.
  - exists []. simpl. rewrite app_nil_r. auto.
  - cbn [retryLoop]. rewrite stopRequested_quiet by assumption. rewrite Hc.
    destruct (fn (world m)) as [[[res st] err] w].
    destruct err as [e|].
    + rewrite waitOrStop_quiet by (assumption || exact Hc).
      match goal with |- context [retryLoop _ _ _ k _ _ _ ?M] => set (m1 := M) end.
      destruct (IH (attempt + 1) (Some e) st m1 Hc) as (evs & Ho & Hcy & Hrw & Hs & Hch).
      exists (EvAttempt apiName attempt st (Some e) :: EvTerminal (clock w) "ERR"
                ("⚠️ " ++ apiName ++ " attempt " ++ pretty (attempt + 1) ++ "/"
                 ++ pretty (retryCount (sched m) + 1) ++ " failed: " ++ Error e)
              :: EvWait (backoffDelay (retryDelaySec (sched m)) attempt) false :: evs).
      rewrite Ho, Hs, Hch. subst m1. simpl. rewrite <- !app_assoc.
      repeat split; assumption.
    + exists [EvAttempt apiName attempt st None]. simpl. auto.
Qed.

Lemma runOps_quiet (env : Env) :
  stopAt env = None ->
  forall (names : list string) (i : Z) (m : Machine),
    isClosed m = false ->
    forallb (fun name => bool_decide (is_Some (apiCalls (sched m) !! name))) names = true ->
    exists (m' : Machine) (evs : list Event),
      runOps env i names m = Some (true, m')
      /\ out m' = (out m ++ evs)%list
      /\ cycles evs = 0%nat /\ rowsOf evs = names
      /\ sched m' = sched m /\ chans m' = chans m.
Proof.
  intros Hq. induction names as [|apiName rest IH]; intros i m Hc Hreg.
  - exists m, []. simpl. rewrite app_nil_r. auto 10.
  - simpl in Hreg. apply andb_prop in Hreg as [Hhd Htl].
    apply bool_decide_eq_true in Hhd. destruct Hhd as [fn Hfn].
    cbn [runOps]. rewrite Hfn. unfold callWithRetry.
    destruct (retryLoop_quiet_frame env apiName fn Hq
                (Z.to_nat (retryCount (sched m) + 1)) 0 None 0 m Hc)
      as (evs & Ho & Hcy & Hrw & Hs & Hch).
    destruct (retryLoop env apiName fn _ 0 None 0 m) as [[[res status] err] m1].
    simpl in Ho, Hs, Hch.
    rewrite stopRequested_quiet by assumption.
    assert (Hc1 : isClosed m1 = false).
    { unfold isClosed in *. rewrite Hs, Hch. exact Hc. }
    change (isClosed (emit _ m1)) with (isClosed m1). rewrite Hc1.
    destruct (clientDo _ _ _) as [r w].
    match goal with |- context [runOps env (i + 1) rest ?M] => set (m2 := M) end.
    destruct (IH (i + 1) m2) as (m' & evs' & Hr' & Ho' & Hcy' & Hrw' & Hs' & Hch').
    { exact Hc1. }
    { subst m2. simpl. rewrite Hs. exact Htl. }
    exists m', (evs ++ EvRow i apiName
                         match err with
                         | Some e => Error e ++ " (status=" ++ pretty status ++ ")"
                         | None => res ++ " (status=" ++ pretty status ++ ")"
                         end (bool_decide (err = None)) :: evs')%list.
    split; [exact Hr'|].
    split.
    { rewrite Ho'. subst m2. simpl. rewrite Ho, <- !app_assoc. reflexivity. }
    split.
    { rewrite cycles_app, Hcy. change (cycles (EvRow _ _ _ _ :: evs')) with (cycles evs').
      rewrite Hcy'. reflexivity. }
    split.
    { rewrite rowsOf_app, Hrw. simpl. rewrite Hrw'. reflexivity. }
    split.
    { rewrite Hs'. subst m2. simpl. exact Hs. }
    rewrite Hch'. subst m2. simpl. exact Hch.
Qed.

(** A cycle that nobody interrupts runs every slot of the execution
    order once, in order, and counts as one cycle. *)
Lemma runOnce_quiet (env : Env) (m : Machine) :
  stopAt env = None -> isClosed m = false -> registered (sched m) = true ->
  exists (m' : Machine) (evs : list Event),
    runOnce env m = Some m'
    /\ out m' = (out m ++ evs)%list
    /\ cycles evs = 1%nat /\ rowsOf evs = apiOrder (sched m)
    /\ sched m' = sched m /\ chans m' = chans m.
Proof.
  intros Hq Hc Hreg. unfold runOnce.
  set (m0 := emit (EvRunStarted (clock (world m))) m).
  destruct (runOps_quiet env Hq (apiOrder (sched m0)) 0 m0 Hc Hreg)
    as (m' & evs & Hr & Ho & Hcy & Hrw & Hs & Hch).
  rewrite Hr.
  exists (emit EvRunCompleted m'), (EvRunStarted (clock (world m)) :: evs ++ [EvRunCompleted])%list.
  split; [reflexivity|].
  split.
  { simpl. rewrite Ho. subst m0. simpl. rewrite <- !app_assoc. reflexivity. }
  split.
  { change (cycles (EvRunStarted _ :: ?l)) with (S (cycles l)).
    rewrite cycles_app, Hcy. reflexivity. }
  split.
  { simpl. rewrite rowsOf_app, Hrw. simpl. apply app_nil_r. }
  split; assumption.
Qed.

Lemma firstAttemptsOf_app (name : string) (l1 l2 : list Event) :
  firstAttemptsOf name (l1 ++ l2) = (firstAttemptsOf name l1 ++ firstAttemptsOf name l2)%list.
Proof.
  induction l1 as [|e l1 IH]; [reflexivity|].
  destruct e; simpl; try exact IH.
  destruct (_ && _); simpl; rewrite IH; reflexivity.
Qed.

(** An uninterrupted retry that starts at attempt 0 records one first
    attempt under its name, with what the operation returned; a retry
    that starts later records none. *)
Lemma retryLoop_quiet_first (env : Env) (name apiName : string) (fn : apiCallFunc) :
  stopAt env = None ->
  forall (k : nat) (attempt : Z) (lastErr : option error) (status : Z) (m : Machine),
    isClosed m = false -> 0 <= attempt ->
    exists evs : list Event,
      out (snd (retryLoop env apiName fn k attempt lastErr status m))
      = (out m ++ evs)%list
      /\ firstAttemptsOf name evs
         = match k with
           | O => []
           | S _ =>
             if String.eqb apiName name && (attempt =? 0)
             then [(snd (fst (fst (fn (world m)))), snd (fst (fn (world m))))]
             else []
           end.
Proof.
  intros Hq. induction k as [|k IH]; intros attempt lastErr status m Hc Ha.
  - exists []. simpl. rewrite app_nil_r. auto.
  - cbn [retryLoop]. rewrite stopRequested_quiet by assumption. rewrite Hc.
    destruct (fn (world m)) as [[[res st] err] w].
    destruct err as [e|].
    + rewrite waitOrStop_quiet by (assumption || exact Hc).
      match goal with |- context [retryLoop _ _ _ k _ _ _ ?M] => set (m1 := M) end.
      destruct (IH (attempt + 1) (Some e) st m1 Hc ltac:(lia)) as (evs & Ho & Hf).
      assert (Hnil : firstAttemptsOf name evs = []).
      { rewrite Hf. destruct k; [reflexivity|].
        destruct (Z.eqb_spec (attempt + 1) 0); [lia|].
        rewrite andb_false_r. reflexivity. }
      exists (EvAttempt apiName attempt st (Some e) :: EvTerminal (clock w) "ERR"
                ("⚠️ " ++ apiName ++ " attempt " ++ pretty (attempt + 1) ++ "/"
                 ++ pretty (retryCount (sched m) + 1) ++ " failed: " ++ Error e)
              :: EvWait (backoffDelay (retryDelaySec (sched m)) attempt) false :: evs).
      split.
      { rewrite Ho. subst m1. simpl. rewrite <- !app_assoc. reflexivity. }
      simpl. rewrite Hnil. destruct (_ && _); reflexivity.
    + exists [EvAttempt apiName attempt st None]. simpl.
      split; [reflexivity|]. destruct (_ && _); reflexivity.
Qed.

(** In a cycle that nobody interrupts, with [retryCount >= 0], every
    slot of [name] makes one first attempt, by invoking the callable
    stored under [name]. *)
Lemma runOps_quiet_first (env : Env) (name : string) (fn : apiCallFunc) :
  stopAt env = None ->
  forall (names : list string) (i : Z) (m : Machine) (b : bool) (m' : Machine),
    isClosed m = false -> 0 <= retryCount (sched m) ->
    apiCalls (sched m) !! name = Some fn ->
    runOps env i names m = Some (b, m') ->
    exists evs : list Event,
      out m' = (out m ++ evs)%list
      /\ length (firstAttemptsOf name evs) = count_occ String.string_dec names name
      /\ Forall (returnedBy fn) (firstAttemptsOf name evs).
Proof.
  intros Hq. induction names as [|apiName rest IH]; intros i m b m' Hc Hn Hfn Hr.
  - simpl in Hr. injection Hr as _ <-. exists []. rewrite app_nil_r.
    split; [reflexivity|]. split; [reflexivity|constructor].
  - cbn [runOps] in Hr.
    destruct (apiCalls (sched m) !! apiName) as [fn'|] eqn:El; [|discriminate].
    unfold callWithRetry in Hr.
    replace (Z.to_nat (retryCount (sched m) + 1))
      with (S (Z.to_nat (retryCount (sched m)))) in Hr by lia.
    destruct (retryLoop_quiet_frame env apiName fn' Hq
                (S (Z.to_nat (retryCount (sched m)))) 0 None 0 m Hc)
      as (evs0 & Ho0 & _ & _ & Hs & Hch).
    destruct (retryLoop_quiet_first env name apiName fn' Hq
                (S (Z.to_nat (retryCount (sched m)))) 0 None 0 m Hc (Z.le_refl 0))
      as (evs & Ho & Hfirst).
    destruct (retryLoop env apiName fn' _ 0 None 0 m) as [[[res status] err] m1].
    simpl in Ho, Hs, Hch.
    rewrite stopRequested_quiet in Hr by assumption.
    assert (Hc1 : isClosed m1 = false).
    { unfold isClosed in *. rewrite Hs, Hch. exact Hc. }
    change (isClosed (emit _ m1)) with (isClosed m1) in Hr. rewrite Hc1 in Hr.
    destruct (clientDo _ _ _) as [r w].
    match type of Hr with runOps env (i + 1) rest ?M = _ => set (m2 := M) in * end.
    destruct (IH (i + 1) m2 b m') as (evs' & Ho' & Hlen' & Hall').
    { exact Hc1. }
    { subst m2. simpl. rewrite Hs. exact Hn. }
    { subst m2. simpl. rewrite Hs. exact Hfn. }
    { exact Hr. }
    exists (evs ++ EvRow i apiName
                     match err with
                     | Some e => Error e ++ " (status=" ++ pretty status ++ ")"
                     | None => res ++ " (status=" ++ pretty status ++ ")"
                     end (bool_decide (err = None)) :: evs')%list.
    split.
    { rewrite Ho'. subst m2. simpl. rewrite Ho, <- !app_assoc. reflexivity. }
    rewrite firstAttemptsOf_app.
    change (firstAttemptsOf name (EvRow _ _ _ _ :: evs')) with (firstAttemptsOf name evs').
    rewrite Hfirst. cbn [count_occ].
    destruct (String.string_dec apiName name) as [->|Hne].
    + rewrite String.eqb_refl. simpl.
      split; [rewrite Hlen'; reflexivity|].
      constructor; [|exact Hall'].
      assert (fn' = fn) by congruence. subst fn'.
      exists (world m). split; reflexivity.
    + apply String.eqb_neq in Hne. rewrite Hne. simpl.
      split; [exact Hlen'|exact Hall'].
Qed.

Lemma runOnce_quiet_first
    (env : Env) (name : string) (fn : apiCallFunc) (m m' : Machine) :
  stopAt env = None -> isClosed m = false -> 0 <= retryCount (sched m) ->
  apiCalls (sched m) !! name = Some fn ->
  runOnce env m = Some m' ->
  exists evs : list Event,
    out m' = (out m ++ evs)%list
    /\ length (firstAttemptsOf name evs)
       = count_occ String.string_dec (apiOrder (sched m)) name
    /\ Forall (returnedBy fn) (firstAttemptsOf name evs).
Proof.
  intros Hq Hc Hn Hfn Hr. unfold runOnce in Hr.
  destruct (runOps env 0 _ _) as [[b m1]|] eqn:E; [|discriminate].
  apply (runOps_quiet_first env name fn Hq) in E; try assumption.
  destruct E as (evs & Ho & Hlen & Hall). simpl in Ho.
  destruct b; injection Hr as <-.
  - exists (EvRunStarted (clock (world m)) :: evs ++ [EvRunCompleted])%list.
    simpl. rewrite Ho, firstAttemptsOf_app, <- !app_assoc. simpl.
    rewrite app_nil_r. auto.
  - exists (EvRunStarted (clock (world m)) :: evs)%list.
    rewrite Ho, <- app_assoc. simpl. auto.
Qed.

(** ** The registry *)

(** C2 fails as stated: registering "A" a second time adds a second
    slot for it, and a cycle then runs "A" twice, both times with the
    callable registered last. *)
Lemma RegisterAPI_reregister_counterexample :
  let s := RegisterAPI "A" opUp (sampleScheduler 0 0 0) in
  let s' := RegisterAPI "A" opDown s in
  apiOrder s = ["A"]
  /\ apiOrder s' = ["A"; "A"]
  /\ apiOrder s' <> apiOrder s
  /\ count_occ String.string_dec (apiOrder s') "A" = 2%nat
  /\ exists m' : Machine,
       runOnce quietEnv (mkMachine s' [false] sampleWorld []) = Some m'
       /\ rowsOf (out m') = ["A"; "A"]
       /\ attemptsOf (out m')
          = [(0, 503, Some (errorString "unavailable"));
             (0, 503, Some (errorString "unavailable"))].
Proof.
  cbv zeta. split; [reflexivity|]. split; [reflexivity|].
  split; [discriminate|]. split; [reflexivity|].
  eexists. split; [vm_compute; reflexivity|]. split; reflexivity.
Qed.

(** C2, amended: [RegisterAPI] overwrites the callable stored under the
    name, leaves the other names' callables and all earlier slots where
    they are, and appends one more slot for the name whether or not it
    is already present; an uninterrupted cycle goes through the slots
    in order and writes one row per slot, so a name registered k times
    gets k rows; and with [retryCount >= 0] the cycle starts one retry
    sequence per slot of the name, k first attempts in all, each of
    them an invocation of the callable registered last. *)
Theorem RegisterAPI_overwrites_and_appends
    (name : string) (fn : apiCallFunc) (s : Scheduler) :
  apiCalls (RegisterAPI name fn s) !! name = Some fn
  /\ (forall other : string,
        other <> name ->
        apiCalls (RegisterAPI name fn s) !! other = apiCalls s !! other)
  /\ apiOrder (RegisterAPI name fn s) = (apiOrder s ++ [name])%list
  /\ (forall (i : nat) (x : string),
        apiOrder s !! i = Some x -> apiOrder (RegisterAPI name fn s) !! i = Some x)
  /\ count_occ String.string_dec (apiOrder (RegisterAPI name fn s)) name
     = S (count_occ String.string_dec (apiOrder s) name)
  /\ (forall (env : Env) (m : Machine),
        sched m = RegisterAPI name fn s ->
        stopAt env = None -> isClosed m = false -> registered (sched m) = true ->
        exists (m' : Machine) (evs : list Event),
          runOnce env m = Some m'
          /\ out m' = (out m ++ evs)%list
          /\ rowsOf evs = (apiOrder s ++ [name])%list
          /\ count_occ String.string_dec (rowsOf evs) name
             = S (count_occ String.string_dec (apiOrder s) name)
          /\ (0 <= retryCount (sched m) ->
              length (firstAttemptsOf name evs)
              = S (count_occ String.string_dec (apiOrder s) name)
              /\ Forall (returnedBy fn) (firstAttemptsOf name evs))).
Proof.
  assert (Hcount : count_occ String.string_dec (apiOrder s ++ [name]) name
                   = S (count_occ String.string_dec (apiOrder s) name)).
  { rewrite count_occ_app. simpl.
    destruct (String.string_dec name name); [lia|congruence]. }
  split; [apply lookup_insert_eq|].
  split; [intros other Hne; apply lookup_insert_ne; congruence|].
  split; [reflexivity|].
  split; [intros i x Hi; simpl; apply lookup_app_l_Some; exact Hi|].
  split; [exact Hcount|].
  intros env m Hs Hq Hc Hreg.
  destruct (runOnce_quiet env m Hq Hc Hreg) as (m' & evs & Hr & Ho & _ & Hrw & _).
  exists m', evs. rewrite Hrw.
  split; [exact Hr|]. split; [exact Ho|].
  split; [rewrite Hs; reflexivity|]. split; [rewrite Hs; exact Hcount|].
  intros Hn.
  destruct (runOnce_quiet_first env name fn m m' Hq Hc Hn) as (evs' & Ho' & Hlen & Hall).
  { rewrite Hs. apply lookup_insert_eq. }
  { exact Hr. }
  rewrite Ho in Ho'. apply app_inv_head in Ho'. subst evs'.
  rewrite Hs in Hlen. cbn [apiOrder RegisterAPI] in Hlen.
  rewrite Hcount in Hlen. split; [exact Hlen|exact Hall].
Qed.

Lemma RegisterAPI_overwrites_and_appends_witness :
  apiCalls (RegisterAPI "A" opDown (sched (sampleMachine 0 0 0))) !! "B"
  = apiCalls (sched (sampleMachine 0 0 0)) !! "B"
  /\ apiOrder (RegisterAPI "A" opDown (sched (sampleMachine 0 0 0))) !! 0%nat = Some "A"
  /\ exists (m' : Machine) (evs : list Event),
       runOnce quietEnv
         (setSched (RegisterAPI "A" opDown (sched (sampleMachine 0 0 0)))
            (sampleMachine 0 0 0)) = Some m'
       /\ out m' = ([] ++ evs)%list
       /\ rowsOf evs = (["A"] ++ ["A"])%list
       /\ count_occ String.string_dec (rowsOf evs) "A" = 2%nat
       /\ length (firstAttemptsOf "A" evs) = 2%nat
       /\ Forall (returnedBy opDown) (firstAttemptsOf "A" evs).
Proof.
  destruct (RegisterAPI_overwrites_and_appends "A" opDown (sched (sampleMachine 0 0 0)))
    as (_ & Hother & _ & Hslot & _ & Hrun).
  split; [apply Hother; discriminate|].
  split; [apply Hslot; reflexivity|].
  destruct (Hrun quietEnv
              (setSched (RegisterAPI "A" opDown (sched (sampleMachine 0 0 0)))
                 (sampleMachine 0 0 0)))
    as (m' & evs & Hr & Ho & Hrw & Hc & Hfirst);
    [reflexivity | reflexivity | reflexivity | vm_compute; reflexivity |].
  exists m', evs.
  split; [exact Hr|]. split; [exact Ho|]. split; [exact Hrw|]. split; [exact Hc|].
  apply Hfirst. vm_compute. discriminate.
Defined.

(** ** Start and Stop *)

(** C7: [Start] on a running scheduler returns the "already running"
    error and changes nothing at all: flag, channel, wait group, output
    (no second loop is launched).  [Start] on a stopped scheduler
    returns no error, sets [running], installs a channel that did not
    exist before and is open, leaves the older channels as they were,
    adds one to the wait group and launches the loop. *)
Theorem Start_contract (m : Machine) :
  (running (sched m) = true ->
   Start m = (Some (errorString "scheduler already running"), m))
  /\ (running (sched m) = false ->
      exists m' : Machine,
        Start m = (None, m')
        /\ running (sched m') = true
        /\ stopChan (sched m') = length (chans m)
        /\ chans m !! stopChan (sched m') = None
        /\ chans m' !! stopChan (sched m') = Some false
        /\ isClosed m' = false
        /\ (forall (c : chan) (b : bool),
              chans m !! c = Some b -> chans m' !! c = Some b)
        /\ wg (sched m') = wg (sched m) + 1
        /\ out m'
           = (out m ++ [EvTerminal (clock (world m)) "INF" "🚀 Scheduler started"; EvGo])%list
        /\ world m' = world m
        /\ apiOrder (sched m') = apiOrder (sched m)
        /\ apiCalls (sched m') = apiCalls (sched m)).
Proof.
  unfold Start. split; intros Hr; rewrite Hr; [reflexivity|].
  eexists. split; [reflexivity|]. simpl.
  assert (Hnew : (chans m ++ [false])%list !! length (chans m) = Some false).
  { rewrite lookup_app_r by lia. rewrite Nat.sub_diag. reflexivity. }
  split; [reflexivity|]. split; [reflexivity|].
  split; [apply lookup_ge_None; lia|].
  split; [exact Hnew|].
  split; [apply isClosed_open; exact Hnew|].
  split; [intros c b Hc; apply lookup_app_l_Some; exact Hc|].
  split; [reflexivity|].
  split; [rewrite <- app_assoc; reflexivity|].
  auto.
Qed.

Lemma Start_contract_witness :
  Start (startedMachine 3 2 5)
  = (Some (errorString "scheduler already running"), startedMachine 3 2 5)
  /\ exists m' : Machine,
       Start (sampleMachine 3 2 5) = (None, m')
       /\ running (sched m') = true
       /\ stopChan (sched m') = 1%nat
       /\ chans (sampleMachine 3 2 5) !! stopChan (sched m') = None
       /\ chans m' !! stopChan (sched m') = Some false
       /\ isClosed m' = false
       /\ (forall (c : chan) (b : bool),
             chans (sampleMachine 3 2 5) !! c = Some b -> chans m' !! c = Some b)
       /\ wg (sched m') = 0 + 1
       /\ out m' = ([] ++ [EvTerminal 0 "INF" "🚀 Scheduler started"; EvGo])%list
       /\ world m' = sampleWorld
       /\ apiOrder (sched m') = ["A"]
       /\ apiCalls (sched m') = apiCalls (sched (sampleMachine 3 2 5)).
Proof.
  split.
  - apply (proj1 (Start_contract (startedMachine 3 2 5))). reflexivity.
  - apply (proj2 (Start_contract (sampleMachine 3 2 5))). reflexivity.
Defined.

(** *** The loop never leaves [running] set behind a closed channel *)

Lemma stopLocked_not_running (m : Machine) :
  running (sched (stopLocked m)) = false.
Proof.
  unfold stopLocked. destruct (running (sched m)) eqn:E; simpl; [reflexivity|exact E].
Qed.

Lemma externalStop_keeps (env : Env) (m : Machine) :
  closedMeansStopped m -> closedMeansStopped (externalStop env m).
Proof.
  intros Hi. unfold externalStop.
  destruct (stopAt env) as [t|]; [|exact Hi].
  destruct (t <=? clock (world m)); [|exact Hi].
  intros _. apply stopLocked_not_running.
Qed.

Lemma stopRequested_keeps (env : Env) (m : Machine) :
  closedMeansStopped m ->
  closedMeansStopped (snd (stopRequested env m))
  /\ (fst (stopRequested env m) = true ->
      running (sched (snd (stopRequested env m))) = false).
Proof.
  intros Hi. unfold stopRequested. simpl.
  pose proof (externalStop_keeps env m Hi) as Hk. split; [exact Hk|exact Hk].
Qed.

Lemma waitOrStop_keeps (env : Env) (d : Z) (m : Machine) :
  closedMeansStopped m ->
  closedMeansStopped (snd (waitOrStop env d m))
  /\ (fst (waitOrStop env d m) = true ->
      running (sched (snd (waitOrStop env d m))) = false).
Proof.
  intros Hi. unfold waitOrStop.
  pose proof (externalStop_keeps env m Hi) as H0.
  destruct (isClosed (externalStop env m)) eqn:E0.
  - destruct ((d <=? 0) && tie env (clock (world (externalStop env m)))); simpl.
    + split; [exact H0|discriminate].
    + split; [exact H0|intros _; exact (H0 E0)].
  - match goal with |- context [externalStop env (setWorld ?W ?M)] =>
      set (m1 := externalStop env (setWorld W M));
      assert (H1 : closedMeansStopped m1)
        by (apply externalStop_keeps; exact H0)
    end.
    destruct (isClosed m1) eqn:E1; simpl.
    + destruct (_ || _); simpl.
      * split; [exact H1|intros _; exact (H1 E1)].
      * split; [exact H1|discriminate].
    + split; [exact H1|discriminate].
Qed.

Lemma retryLoop_keeps (env : Env) (apiName : string) (fn : apiCallFunc) :
  forall (k : nat) (attempt : Z) (lastErr : option error) (status : Z) (m : Machine),
    closedMeansStopped m ->
    closedMeansStopped (snd (retryLoop env apiName fn k attempt lastErr status m)).
Proof.
  induction k as [|k IH]; intros attempt lastErr status m Hi; [exact Hi|].
  cbn [retryLoop].
  destruct (stopRequested_keeps env m Hi) as [H1 _].
  destruct (stopRequested env m) as [stopped m1]. simpl in H1.
  destruct stopped; [exact H1|].
  destruct (fn (world m1)) as [[[res st] err] w].
  destruct err as [e|]; [|exact H1].
  match goal with |- context [waitOrStop env ?D ?M] =>
    destruct (waitOrStop_keeps env D M H1) as [H2 _];
    destruct (waitOrStop env D M) as [stopped m2]
  end.
  simpl in H2. destruct stopped; [exact H2|]. apply IH. exact H2.
Qed.

Lemma runOps_keeps (env : Env) :
  forall (names : list string) (i : Z) (m : Machine) (b : bool) (m' : Machine),
    closedMeansStopped m ->
    runOps env i names m = Some (b, m') ->
    closedMeansStopped m'.
Proof.
  induction names as [|apiName rest IH]; intros i m b m' Hi Hr.
  - simpl in Hr. injection Hr as _ <-. exact Hi.
  - cbn [runOps] in Hr.
    destruct (apiCalls (sched m) !! apiName) as [fn|]; [|discriminate].
    unfold callWithRetry in Hr.
    pose proof (retryLoop_keeps env apiName fn
                  (Z.to_nat (retryCount (sched m) + 1)) 0 None 0 m Hi) as H1.
    destruct (retryLoop env apiName fn _ 0 None 0 m) as [[[res status] err] m1].
    simpl in H1.
    match type of Hr with context [stopRequested env ?M] =>
      destruct (stopRequested_keeps env M H1) as [H2 _];
      destruct (stopRequested env M) as [stopped m2]
    end.
    simpl in H2. destruct stopped.
    + injection Hr as _ <-. exact H2.
    + destruct (clientDo _ _ _) as [r w]. eapply IH; [|exact Hr]. exact H2.
Qed.

Lemma runOnce_keeps (env : Env) (m m' : Machine) :
  closedMeansStopped m -> runOnce env m = Some m' -> closedMeansStopped m'.
Proof.
  intros Hi Hr. unfold runOnce in Hr.
  destruct (runOps env 0 _ _) as [[b m1]|] eqn:E; [|discriminate].
  apply runOps_keeps in E; [|exact Hi].
  destruct b; injection Hr as <-; exact E.
Qed.

Lemma stopJoin_running (m m' : Machine) :
  stopJoin m = Some m' -> running (sched m') = running (sched m).
Proof.
  unfold stopJoin. destruct (wg (sched m) =? 0); [|discriminate].
  intros H. injection H as <-. reflexivity.
Qed.

(** Whether it returns or parks, [Stop] leaves [running] cleared. *)
Lemma Stop_not_running (m : Machine) :
  match Stop m with
  | StopReturned m' | StopParked m' => running (sched m') = false
  end.
Proof.
  unfold Stop. destruct (running (sched m)) eqn:E; simpl; [|exact E].
  pose proof (stopLocked_not_running m) as Hs.
  destruct (stopJoin _) as [m'|] eqn:Ej.
  - apply stopJoin_running in Ej. rewrite Ej. exact Hs.
  - exact Hs.
Qed.

Lemma wgDone_running (m m' : Machine) :
  wgDone m = LoopReturned m' -> running (sched m') = running (sched m).
Proof.
  unfold wgDone. destruct (wg (sched m) - 1 <? 0); [discriminate|].
  intros H. injection H as <-. reflexivity.
Qed.

Lemma loopFrom_returned_stopped (env : Env) :
  forall (fuel : nat) (interval count : Z) (m m' : Machine),
    closedMeansStopped m ->
    loopFrom env fuel interval count m = LoopReturned m' ->
    running (sched m') = false.
Proof.
  induction fuel as [|fuel IH]; intros interval count m m' Hi Hr; [discriminate|].
  cbn [loopFrom] in Hr.
  destruct (waitOrStop_keeps env interval m Hi) as [H1 H1s].
  destruct (waitOrStop env interval m) as [stopped m1]. simpl in H1, H1s.
  destruct stopped.
  - apply wgDone_running in Hr. rewrite Hr. simpl. apply H1s. reflexivity.
  - destruct (runOnce env m1) as [m2|] eqn:E2; [|discriminate].
    pose proof (runOnce_keeps env m1 m2 H1 E2) as H2.
    destruct ((0 <? runCount (sched m2)) && (runCount (sched m2) <=? count + 1)).
    + match type of Hr with context [Stop ?M] =>
        pose proof (Stop_not_running M) as Hs; destruct (Stop M) as [m3|m3]
      end; [|discriminate].
      apply wgDone_running in Hr. rewrite Hr. exact Hs.
    + eapply IH; [exact H2|exact Hr].
Qed.

(** Once the background loop has returned, [running] is false. *)
Lemma runLoop_returned_stopped (env : Env) (fuel : nat) (m m' : Machine) :
  closedMeansStopped m ->
  runLoop env fuel m = LoopReturned m' ->
  running (sched m') = false.
Proof.
  intros Hi Hr. unfold runLoop in Hr.
  destruct (runOnce env m) as [m1|] eqn:E; [|discriminate].
  eapply loopFrom_returned_stopped; [|exact Hr].
  eapply runOnce_keeps; eassumption.
Qed.

(** C6: [Stop] on a scheduler that is not running changes nothing and
    returns without reaching the wait.  On a running scheduler it
    clears [running] and closes the stop channel before it waits or
    returns.  [IsRunning] is false after any [Stop] that returns at
    once, after a parked [Stop] is released by the loop's return, and
    on a scheduler fresh from the constructor. *)
Theorem Stop_contract (m : Machine) :
  (running (sched m) = false -> Stop m = StopReturned m)
  /\ (running (sched m) = true ->
      chans m !! stopChan (sched m) = Some false ->
      match Stop m with
      | StopReturned m' | StopParked m' =>
        running (sched m') = false /\ isClosed m' = true
      end)
  /\ (forall m' : Machine, Stop m = StopReturned m' -> IsRunning m' = false)
  /\ (forall (env : Env) (fuel : nat) (m2 m3 : Machine),
        closedMeansStopped m ->
        runLoop env fuel m = LoopReturned m2 ->
        stopJoin m2 = Some m3 ->
        IsRunning m3 = false)
  /\ (forall (rfc3339 : Z -> string) (unmarshalUpdates : string -> string + (bool * Z))
             (chatIDStr : string) (c : TelegramClient) (interval : Q)
             (runs retries delay : Z) (logFilePath : string) (w : World)
             (m0 : Machine),
        NewScheduler rfc3339 unmarshalUpdates chatIDStr c interval runs retries
          delay logFilePath w = inl m0 ->
        IsRunning m0 = false).
Proof.
  split; [|split; [|split; [|split]]].
  - intros Hr. unfold Stop. rewrite Hr. reflexivity.
  - intros Hr Ho.
    destruct (stopLocked_closes m Hr Ho) as [Hc Hs].
    unfold Stop. rewrite Hr. simpl.
    destruct (stopJoin _) as [m'|] eqn:Ej.
    + unfold stopJoin in Ej. simpl in Ej.
      destruct (wg (sched (stopLocked m)) =? 0); [|discriminate].
      injection Ej as <-. split; [exact Hs|exact Hc].
    + split; [exact Hs|exact Hc].
  - intros m' Hm. pose proof (Stop_not_running m) as Hs. rewrite Hm in Hs. exact Hs.
  - intros env fuel m2 m3 Hi Hl Hj.
    unfold IsRunning. rewrite (stopJoin_running m2 m3 Hj).
    eapply runLoop_returned_stopped; eassumption.
  - intros rfc3339 unmarshalUpdates chatIDStr c interval runs retries delay
           logFilePath w m0 Hn.
    unfold NewScheduler in Hn.
    destruct (ParseInt chatIDStr); [|discriminate].
    destruct (openErr w logFilePath); [discriminate|].
    injection Hn as <-. reflexivity.
Qed.

Lemma Stop_contract_witness :
  Stop (sampleMachine 0 2 5) = StopReturned (sampleMachine 0 2 5)
  /\ match Stop (startedMachine 0 2 5) with
     | StopReturned m' | StopParked m' =>
       running (sched m') = false /\ isClosed m' = true
     end
  /\ exists m2 m3 : Machine,
       runLoop (stopEnv 7000000000) 5 (startedMachine 0 2 5) = LoopReturned m2
       /\ stopJoin m2 = Some m3
       /\ IsRunning m3 = false.
Proof.
  destruct (Stop_contract (sampleMachine 0 2 5)) as (Hnoop & _).
  destruct (Stop_contract (startedMachine 0 2 5)) as (_ & Hrun & _ & Hjoin & _).
  split; [apply Hnoop; reflexivity|].
  split; [apply Hrun; reflexivity|].
  assert (Hi : closedMeansStopped (startedMachine 0 2 5))
    by (intros Hc; vm_compute in Hc; discriminate).
  eexists _, _.
  split; [vm_compute; reflexivity|].
  split; [vm_compute; reflexivity|].
  eapply (Hjoin (stopEnv 7000000000) 5%nat); [exact Hi| |];
    vm_compute; reflexivity.
Defined.

(** ** The constructor *)

(** C8 fails as stated: a tick interval of zero minutes, or a negative
    one, is accepted and stored. *)
Lemma NewScheduler_zero_interval_counterexample :
  (exists m : Machine,
     NewScheduler sampleFormat sampleUnmarshal "123" (mkClient "token")
       (0 # 1) 0 2 5 "logs/api_check.log" sampleWorld = inl m
     /\ intervalMinutes (sched m) = 0 # 1
     /\ ~ (0 < intervalMinutes (sched m))%Q)
  /\ (exists m : Machine,
        NewScheduler sampleFormat sampleUnmarshal "123" (mkClient "token")
          (-1 # 2) 0 2 5 "logs/api_check.log" sampleWorld = inl m
        /\ ~ (0 < intervalMinutes (sched m))%Q).
Proof.
  split; eexists; (split; [reflexivity|]); simpl.
  - split; [reflexivity|]. intros H. vm_compute in H. discriminate.
  - intros H. vm_compute in H. discriminate.
Qed.

(** C8, amended: construction fails exactly when the target identifier
    does not parse as a base-10 64-bit integer or the log destination
    cannot be opened, with the matching error; otherwise it succeeds
    for every tick interval, run count, retry count and retry delay,
    and stores them as given in a scheduler that is not running and
    holds the five operations in registration order. *)
Theorem NewScheduler_checks_id_and_log
    (rfc3339 : Z -> string) (unmarshalUpdates : string -> string + (bool * Z))
    (chatIDStr : string) (c : TelegramClient) (interval : Q)
    (runs retries delay : Z) (logFilePath : string) (w : World) :
  match NewScheduler rfc3339 unmarshalUpdates chatIDStr c interval runs
          retries delay logFilePath w with
  | inl m =>
    ParseInt chatIDStr = inl (chatID (sched m))
    /\ openErr w logFilePath = None
    /\ intervalMinutes (sched m) = interval
    /\ runCount (sched m) = runs
    /\ retryCount (sched m) = retries
    /\ retryDelaySec (sched m) = delay
    /\ running (sched m) = false
    /\ apiOrder (sched m) = constructorOrder
    /\ registered (sched m) = true
  | inr e =>
    (exists ne : NumError,
       ParseInt chatIDStr = inr ne
       /\ e = errorString ("invalid chatID: " ++ numErrorText chatIDStr ne))
    \/ (exists (id : Z) (txt : string),
          ParseInt chatIDStr = inl id
          /\ openErr w logFilePath = Some txt
          /\ e = errorString ("cannot open log file: " ++ txt))
  end.
Proof.
  unfold NewScheduler.
  destruct (ParseInt chatIDStr) as [id|ne]; [|left; eauto].
  destruct (openErr w logFilePath) as [txt|]; [right; eauto|].
  simpl. repeat split; reflexivity.
Qed.

(** ** The run-count ceiling *)

(** [Stop] called while the wait group is not zero parks its caller. *)
Lemma Stop_parks (m : Machine) :
  running (sched m) = true -> wg (sched m) <> 0 ->
  Stop m = StopParked (logTerminal "INF" "🛑 Scheduler stopping..." (stopLocked m)).
Proof.
  intros Hr Hw. unfold Stop. rewrite Hr. simpl.
  unfold stopJoin. simpl.
  assert (Hwg : wg (sched (stopLocked m)) = wg (sched m)).
  { unfold stopLocked. rewrite Hr. reflexivity. }
  rewrite Hwg. destruct (Z.eqb_spec (wg (sched m)) 0); [contradiction|reflexivity].
Qed.

Lemma loopFrom_ceiling (env : Env) (interval : Z) :
  stopAt env = None ->
  forall (fuel : nat) (count : Z) (m : Machine),
    0 < runCount (sched m) ->
    running (sched m) = true ->
    chans m !! stopChan (sched m) = Some false ->
    wg (sched m) <> 0 ->
    registered (sched m) = true ->
    Z.max 1 (runCount (sched m) - count) <= Z.of_nat fuel ->
    exists m' : Machine,
      loopFrom env fuel interval count m = LoopParked m'
      /\ cycles (out m')
         = (cycles (out m) + Z.to_nat (Z.max 1 (runCount (sched m) - count)))%nat
      /\ running (sched m') = false
      /\ isClosed m' = true
      /\ wg (sched m') = wg (sched m).
Proof.
  intros Hq. induction fuel as [|fuel IH]; intros count m HN Hr Ho Hw Hreg Hfuel; [lia|].
  cbn [loopFrom].
  pose proof (isClosed_open m Ho) as Hc.
  rewrite waitOrStop_quiet by assumption.
  match goal with |- context [runOnce env ?M] => set (m1 := M) end.
  destruct (runOnce_quiet env m1 Hq Hc Hreg) as (m2 & evs & Hr2 & Ho2 & Hcy & _ & Hs2 & Hch2).
  rewrite Hr2.
  assert (Hs : sched m2 = sched m) by (rewrite Hs2; reflexivity).
  assert (Hch : chans m2 = chans m) by (rewrite Hch2; reflexivity).
  assert (Hout : cycles (out m2) = S (cycles (out m))).
  { rewrite Ho2, cycles_app, Hcy. subst m1. cbn [out emit setWorld].
    rewrite cycles_snoc. cbn [isRunStarted]. lia. }
  rewrite Hs.
  destruct (Z.ltb_spec 0 (runCount (sched m))) as [_|]; [|lia].
  destruct (Z.leb_spec (runCount (sched m)) (count + 1)) as [Hle|Hgt]; simpl.
  - rewrite externalStop_quiet by assumption.
    match goal with |- context [Stop ?M] => set (m3 := M) end.
    assert (Hr3 : running (sched m3) = true) by (subst m3; simpl; rewrite Hs; exact Hr).
    assert (Hw3 : wg (sched m3) <> 0) by (subst m3; simpl; rewrite Hs; exact Hw).
    assert (Ho3 : chans m3 !! stopChan (sched m3) = Some false)
      by (subst m3; simpl; rewrite Hs, Hch; exact Ho).
    rewrite (Stop_parks m3 Hr3 Hw3).
    destruct (stopLocked_closes m3 Hr3 Ho3) as [Hcl Hnr].
    destruct (stopLocked_frame m3) as [_ Hso].
    eexists. split; [reflexivity|].
    split.
    { cbn [out logTerminal emit]. rewrite Hso. subst m3. cbn [out logTerminal emit].
      rewrite !cycles_snoc, Hout. cbn [isRunStarted].
      replace (Z.max 1 (runCount (sched m) - count)) with 1 by lia. lia. }
    split; [exact Hnr|]. split; [exact Hcl|].
    simpl. unfold stopLocked. rewrite Hr3. subst m3. simpl. rewrite Hs. reflexivity.
  - destruct (IH (count + 1) m2) as (m' & Hl & Hcy' & Hnr & Hcl & Hwg).
    + rewrite Hs. exact HN.
    + rewrite Hs. exact Hr.
    + rewrite Hs, Hch. exact Ho.
    + rewrite Hs. exact Hw.
    + rewrite Hs. exact Hreg.
    + rewrite Hs. lia.
    + exists m'. split; [exact Hl|].
      rewrite Hs in Hcy', Hwg.
      split; [rewrite Hcy', Hout; lia|]. auto.
Qed.

(** C1, as the code has it: with a run-count ceiling [N > 0] and nobody
    calling [Stop], the loop runs [max 2 N] cycles (two when [N = 1]:
    the ceiling is not checked after the first cycle), clears [running]
    and closes the stop channel, and then does not return: it is parked
    in the [wg.Wait()] of its own [Stop], the wait group still holding
    the unit that only its own return would release. *)
Theorem runLoop_ceiling_parks (env : Env) (m : Machine) (N : Z) (fuel : nat) :
  runCount (sched m) = N -> 0 < N ->
  stopAt env = None ->
  running (sched m) = true ->
  chans m !! stopChan (sched m) = Some false ->
  wg (sched m) <> 0 ->
  registered (sched m) = true ->
  Z.max 1 (N - 1) <= Z.of_nat fuel ->
  exists m' : Machine,
    runLoop env fuel m = LoopParked m'
    /\ cycles (out m') = (cycles (out m) + Z.to_nat (Z.max 2 N))%nat
    /\ IsRunning m' = false
    /\ isClosed m' = true
    /\ wg (sched m') = wg (sched m)
    /\ stopJoin m' = None.
Proof.
  intros HN Hpos Hq Hr Ho Hw Hreg Hfuel. subst N. unfold runLoop.
  destruct (runOnce_quiet env m Hq (isClosed_open m Ho) Hreg)
    as (m1 & evs & Hr1 & Ho1 & Hcy & _ & Hs & Hch).
  rewrite Hr1, Hs.
  destruct (loopFrom_ceiling env (intervalDuration (intervalMinutes (sched m))) Hq
              fuel 1 m1) as (m' & Hl & Hcy' & Hnr & Hcl & Hwg);
    try (rewrite Hs); try assumption.
  { rewrite Hch. exact Ho. }
  exists m'. rewrite Hs in Hcy', Hwg.
  split; [exact Hl|].
  split; [rewrite Hcy', Ho1, cycles_app, Hcy; lia|].
  split; [exact Hnr|]. split; [exact Hcl|]. split; [exact Hwg|].
  unfold stopJoin. rewrite Hwg.
  destruct (Z.eqb_spec (wg (sched m)) 0); [contradiction|reflexivity].
Qed.

Lemma runLoop_ceiling_parks_witness :
  exists m' : Machine,
    runLoop quietEnv 1 (builtMachine 1) = LoopParked m'
    /\ cycles (out m') = (cycles (out (builtMachine 1)) + Z.to_nat (Z.max 2 1))%nat
    /\ IsRunning m' = false
    /\ isClosed m' = true
    /\ wg (sched m') = wg (sched (builtMachine 1))
    /\ stopJoin m' = None.
Proof.
  apply (runLoop_ceiling_parks quietEnv (builtMachine 1) 1 1);
    [reflexivity | lia | reflexivity | reflexivity | reflexivity
    | vm_compute; discriminate | vm_compute; reflexivity | vm_compute; discriminate].
Defined.

(** * Further properties of the scheduler *)

(** ** What the loop leaves alone *)

Lemma onlyRunning_refl (s : Scheduler) : onlyRunning s s.
Proof. unfold onlyRunning. destruct s; reflexivity. Qed.

Lemma onlyRunning_trans (s1 s2 s3 : Scheduler) :
  onlyRunning s1 s2 -> onlyRunning s2 s3 -> onlyRunning s1 s3.
Proof.
  destruct s1, s2, s3. unfold onlyRunning, setLifecycle. simpl.
  intros H12 H23. injection H12 as -> -> -> -> -> -> -> -> -> ->.
  injection H23 as -> -> -> -> -> -> -> -> -> ->. reflexivity.
Qed.

Lemma onlyRunning_fields (s s' : Scheduler) :
  onlyRunning s s' ->
  chatID s' = chatID s /\ client s' = client s
  /\ intervalMinutes s' = intervalMinutes s /\ runCount s' = runCount s
  /\ retryCount s' = retryCount s /\ retryDelaySec s' = retryDelaySec s
  /\ stopChan s' = stopChan s /\ wg s' = wg s
  /\ apiCalls s' = apiCalls s /\ apiOrder s' = apiOrder s.
Proof. unfold onlyRunning. intros ->. simpl. auto 12. Qed.

Lemma evolves_refl (m : Machine) : evolves m m.
Proof.
  split; [apply onlyRunning_refl|]. split; [reflexivity|].
  exists []. symmetry. apply app_nil_r.
Qed.

Lemma evolves_trans (m1 m2 m3 : Machine) :
  evolves m1 m2 -> evolves m2 m3 -> evolves m1 m3.
Proof.
  intros (Hs12 & Hl12 & evs1 & Ho12) (Hs23 & Hl23 & evs2 & Ho23).
  split; [eapply onlyRunning_trans; eassumption|].
  split; [congruence|].
  exists (evs1 ++ evs2)%list. rewrite Ho23, Ho12. symmetry. apply app_assoc.
Qed.

Lemma evolves_emit (e : Event) (m : Machine) : evolves m (emit e m).
Proof.
  split; [apply onlyRunning_refl|]. split; [reflexivity|]. exists [e]. reflexivity.
Qed.

Lemma evolves_setWorld (w : World) (m : Machine) : evolves m (setWorld w m).
Proof. apply (evolves_refl m). Qed.

Lemma evolves_stopLocked (m : Machine) : evolves m (stopLocked m).
Proof.
  unfold stopLocked. destruct (running (sched m)) eqn:E; simpl; [|apply evolves_refl].
  split; [reflexivity|]. split; [simpl; apply length_insert|].
  exists []. simpl. symmetry. apply app_nil_r.
Qed.

Lemma evolves_externalStop (env : Env) (m : Machine) : evolves m (externalStop env m).
Proof.
  unfold externalStop. destruct (stopAt env) as [t|]; [|apply evolves_refl].
  destruct (t <=? clock (world m)); [apply evolves_stopLocked|apply evolves_refl].
Qed.

Lemma evolves_stopRequested (env : Env) (m : Machine) :
  evolves m (snd (stopRequested env m)).
Proof. apply evolves_externalStop. Qed.

Lemma evolves_waitOrStop (env : Env) (d : Z) (m : Machine) :
  evolves m (snd (waitOrStop env d m)).
Proof.
  unfold waitOrStop.
  pose proof (evolves_externalStop env m) as H0.
  destruct (isClosed (externalStop env m)).
  - destruct (_ && _); simpl; (eapply evolves_trans; [exact H0|apply evolves_emit]).
  - match goal with |- context [externalStop env (setWorld ?W ?M)] =>
      pose proof (evolves_externalStop env (setWorld W M)) as H1;
      set (m1 := externalStop env (setWorld W M)) in *
    end.
    assert (H01 : evolves m m1).
    { eapply evolves_trans; [exact H0|]. exact H1. }
    destruct (_ && _); simpl.
    + eapply evolves_trans; [exact H01|apply evolves_emit].
    + eapply evolves_trans; [exact H01|].
      eapply evolves_trans; [|apply evolves_emit]. apply evolves_setWorld.
Qed.

Lemma evolves_retryLoop (env : Env) (apiName : string) (fn : apiCallFunc) :
  forall (k : nat) (attempt : Z) (lastErr : option error) (status : Z) (m : Machine),
    evolves m (snd (retryLoop env apiName fn k attempt lastErr status m)).
Proof.
  induction k as [|k IH]; intros attempt lastErr status m; [apply evolves_refl|].
  cbn [retryLoop].
  pose proof (evolves_stopRequested env m) as H1.
  destruct (stopRequested env m) as [stopped m1]. simpl in H1.
  destruct stopped; [exact H1|].
  destruct (fn (world m1)) as [[[res st] err] w].
  assert (H2 : evolves m (emit (EvAttempt apiName attempt st err) (setWorld w m1))).
  { eapply evolves_trans; [exact H1|]. apply (evolves_emit _ (setWorld w m1)). }
  destruct err as [e|]; [|exact H2].
  match goal with |- context [waitOrStop env ?D ?M] =>
    pose proof (evolves_waitOrStop env D M) as H3;
    assert (H23 : evolves m M)
      by (eapply evolves_trans; [exact H2|apply evolves_emit]);
    destruct (waitOrStop env D M) as [stopped m3]
  end.
  simpl in H3.
  assert (H4 : evolves m m3) by (eapply evolves_trans; eassumption).
  destruct stopped; [exact H4|].
  eapply evolves_trans; [exact H4|apply IH].
Qed.

Lemma evolves_callWithRetry (env : Env) (apiName : string) (fn : apiCallFunc) (m : Machine) :
  evolves m (snd (callWithRetry env apiName fn m)).
Proof. apply evolves_retryLoop. Qed.

Lemma evolves_runOps (env : Env) :
  forall (names : list string) (i : Z) (m : Machine) (b : bool) (m' : Machine),
    runOps env i names m = Some (b, m') -> evolves m m'.
Proof.
  induction names as [|apiName rest IH]; intros i m b m' Hr.
  - simpl in Hr. injection Hr as _ <-. apply evolves_refl.
  - cbn [runOps] in Hr.
    destruct (apiCalls (sched m) !! apiName) as [fn|]; [|discriminate].
    pose proof (evolves_callWithRetry env apiName fn m) as H1.
    destruct (callWithRetry env apiName fn m) as [[[res status] err] m1].
    simpl in H1.
    match type of Hr with context [stopRequested env ?M] =>
      pose proof (evolves_stopRequested env M) as H2;
      assert (H12 : evolves m M)
        by (eapply evolves_trans; [exact H1|apply evolves_emit]);
      destruct (stopRequested env M) as [stopped m2]
    end.
    simpl in H2.
    assert (H3 : evolves m m2) by (eapply evolves_trans; eassumption).
    destruct stopped.
    + injection Hr as _ <-. exact H3.
    + destruct (clientDo _ _ _) as [r w].
      eapply evolves_trans; [exact H3|].
      eapply evolves_trans; [apply (evolves_setWorld w m2)|]. eapply IH. exact Hr.
Qed.

Lemma evolves_runOnce (env : Env) (m m' : Machine) :
  runOnce env m = Some m' -> evolves m m'.
Proof.
  unfold runOnce. intros Hr.
  destruct (runOps env 0 _ _) as [[b m1]|] eqn:E; [|discriminate].
  apply evolves_runOps in E.
  assert (H1 : evolves m m1).
  { eapply evolves_trans; [apply (evolves_emit (EvRunStarted (clock (world m))) m)|exact E]. }
  destruct b; injection Hr as <-; [|exact H1].
  eapply evolves_trans; [exact H1|apply evolves_emit].
Qed.

(** ** The retry executor in any environment *)

Lemma retryLoop_bounded (env : Env) (apiName : string) (fn : apiCallFunc) :
  forall (k : nat) (attempt : Z) (lastErr : option error) (status : Z) (m : Machine),
    exists (evs : list Event) (j : nat),
      out (snd (retryLoop env apiName fn k attempt lastErr status m))
      = (out m ++ evs)%list
      /\ rowsOf evs = [] /\ cycles evs = 0%nat
      /\ (j <= k)%nat
      /\ map (fun r => fst (fst r)) (attemptsOf evs) = upFrom attempt j
      /\ (length (waitsOf evs) <= j)%nat.
Proof.
  induction k as [|k IH]; intros attempt lastErr status m.
  - exists [], 0%nat. simpl. rewrite app_nil_r. auto 10.
  - cbn [retryLoop].
    destruct (externalStop_frame env m) as [_ Ho1].
    unfold stopRequested.
    destruct (isClosed (externalStop env m)).
    { exists [], 0%nat. simpl. rewrite app_nil_r, Ho1.
      repeat split; auto; lia. }
    destruct (fn (world (externalStop env m))) as [[[res st] err] w].
    destruct err as [e|].
    + match goal with |- context [waitOrStop env ?D ?M] =>
        set (d := D); set (m2 := M)
      end.
      assert (Hw : exists b, out (snd (waitOrStop env d m2))
                             = (out m2 ++ [EvWait d b])%list).
      { unfold waitOrStop.
        destruct (externalStop_frame env m2) as [_ Ho2].
        destruct (isClosed (externalStop env m2)).
        - destruct (_ && _); simpl; rewrite Ho2; eauto.
        - match goal with |- context [externalStop env (setWorld ?W ?M)] =>
            destruct (externalStop_frame env (setWorld W M)) as [_ Ho3]
          end.
          destruct (_ && _); simpl; rewrite Ho3; simpl; rewrite Ho2; eauto. }
      destruct Hw as [b Hw].
      destruct (waitOrStop env d m2) as [stopped m3]. simpl in Hw.
      assert (Ho3 : out m3
                    = (out m ++ [EvAttempt apiName attempt st (Some e);
                                 EvTerminal (clock w) "ERR"
                                   ("⚠️ " ++ apiName ++ " attempt " ++ pretty (attempt + 1)
                                    ++ "/" ++ pretty (retryCount (sched (externalStop env m)) + 1)
                                    ++ " failed: " ++ Error e);
                                 EvWait d b])%list).
      { rewrite Hw. subst m2. simpl. rewrite Ho1, <- !app_assoc. reflexivity. }
      destruct stopped.
      * eexists _, 1%nat. split; [exact Ho3|]. simpl. repeat split; auto; lia.
      * destruct (IH (attempt + 1) (Some e) st m3) as (evs & j & Ho & Hrw & Hcy & Hj & Ha & Hwt).
        eexists (_ :: _ :: _ :: evs), (S j).
        split; [rewrite Ho, Ho3, <- !app_assoc; reflexivity|].
        split; [exact Hrw|]. split; [exact Hcy|]. split; [lia|].
        split; [simpl; rewrite Ha; reflexivity|]. simpl. lia.
    + eexists [_], 1%nat. simpl. rewrite Ho1.
      repeat split; auto; lia.
Qed.

(** X1: [callWithRetry] never tries more often than configured: for any
    operation and in any environment it makes at most [retryCount+1]
    attempts (none when [retryCount] is negative), numbered 0, 1, 2,
    ... without gaps, waits at most once per attempt, and writes
    neither a row nor a cycle banner of its own. *)
Theorem callWithRetry_attempts_bounded
    (env : Env) (apiName : string) (fn : apiCallFunc) (m : Machine) :
  exists evs : list Event,
    out (snd (callWithRetry env apiName fn m)) = (out m ++ evs)%list
    /\ Z.of_nat (length (attemptsOf evs)) <= Z.max 0 (retryCount (sched m) + 1)
    /\ map (fun r => fst (fst r)) (attemptsOf evs)
       = upFrom 0 (length (attemptsOf evs))
    /\ (length (waitsOf evs) <= length (attemptsOf evs))%nat
    /\ rowsOf evs = [] /\ cycles evs = 0%nat.
Proof.
  unfold callWithRetry.
  destruct (retryLoop_bounded env apiName fn
              (Z.to_nat (retryCount (sched m) + 1)) 0 None 0 m)
    as (evs & j & Ho & Hrw & Hcy & Hj & Ha & Hw).
  assert (Hlen : length (attemptsOf evs) = j).
  { rewrite <- (length_map (fun r => fst (fst r))), Ha. apply upFrom_length. }
  exists evs. rewrite Hlen.
  split; [exact Ho|]. split; [lia|]. auto.
Qed.

Lemma waitOrStop_out (env : Env) (d : Z) (m : Machine) :
  out (snd (waitOrStop env d m))
  = (out m ++ [EvWait d (fst (waitOrStop env d m))])%list.
Proof.
  unfold waitOrStop.
  destruct (externalStop_frame env m) as [_ Ho].
  destruct (isClosed (externalStop env m)).
  - destruct (_ && _); simpl; rewrite Ho; reflexivity.
  - match goal with |- context [externalStop env (setWorld ?W ?M)] =>
      destruct (externalStop_frame env (setWorld W M)) as [_ Ho3]
    end.
    destruct (_ && _); simpl; rewrite Ho3; simpl; rewrite Ho; reflexivity.
Qed.

(** How a retry can end, in any environment and for any operation. *)
Lemma retryLoop_outcome (env : Env) (apiName : string) (fn : apiCallFunc) :
  forall (k : nat) (attempt : Z) (lastErr : option error) (status : Z) (m : Machine),
    exists evs : list Event,
      out (snd (retryLoop env apiName fn k attempt lastErr status m))
      = (out m ++ evs)%list
      /\ ((exists (prev : list (Z * Z * option error)) (res : string) (st : Z),
             fst (retryLoop env apiName fn k attempt lastErr status m) = (res, st, None)
             /\ attemptsOf evs
                = (prev ++ [(attempt + Z.of_nat (length prev), st, None)])%list
             /\ Forall failedAttempt prev
             /\ waitsOf evs
                = map (fun p => (backoffDelay (retryDelaySec (sched m)) (fst (fst p)), false))
                      prev)
          \/ (fst (retryLoop env apiName fn k attempt lastErr status m)
              = ("", 0, Some (errorString "stopped"))
              /\ Forall failedAttempt (attemptsOf evs)
              /\ (length (attemptsOf evs) < k)%nat)
          \/ (exists (a st : Z) (e : error) (d : Z),
                fst (retryLoop env apiName fn k attempt lastErr status m)
                = ("", st, Some (errorString "stopped during retry"))
                /\ last (attemptsOf evs) = Some (a, st, Some e)
                /\ Forall failedAttempt (attemptsOf evs)
                /\ last (waitsOf evs) = Some (d, true))
          \/ (length (attemptsOf evs) = k
              /\ Forall failedAttempt (attemptsOf evs)
              /\ exists (st : Z) (err : option error),
                   fst (retryLoop env apiName fn k attempt lastErr status m)
                   = ("", st, err)
                   /\ match last (attemptsOf evs) with
                      | Some (_, st', err') => st = st' /\ err = err'
                      | None => st = status /\ err = lastErr
                      end)).
Proof.
  induction k as [|k IH]; intros attempt lastErr status m.
  - exists []. simpl. rewrite app_nil_r. split; [reflexivity|].
    right; right; right. split; [reflexivity|]. split; [constructor|]. eauto.
  - cbn [retryLoop].
    destruct (externalStop_frame env m) as [_ Ho1].
    pose proof (evolves_externalStop env m) as Hev1.
    unfold stopRequested.
    destruct (isClosed (externalStop env m)).
    { exists []. simpl. rewrite app_nil_r, Ho1. split; [reflexivity|].
      right; left. simpl. split; [reflexivity|]. split; [constructor|lia]. }
    destruct (fn (world (externalStop env m))) as [[[res st] err] w].
    destruct err as [e|].
    + match goal with |- context [waitOrStop env ?D ?M] =>
        set (d := D); set (m2 := M)
      end.
      pose proof (waitOrStop_out env d m2) as Hw.
      pose proof (evolves_waitOrStop env d m2) as Hev3.
      destruct (waitOrStop env d m2) as [stopped m3]. simpl in Hw, Hev3.
      assert (Hd : retryDelaySec (sched m3) = retryDelaySec (sched m)).
      { destruct Hev3 as [Hs3 _]. destruct Hev1 as [Hs1 _].
        apply onlyRunning_fields in Hs3. apply onlyRunning_fields in Hs1.
        subst m2. simpl in Hs3. intuition congruence. }
      assert (Hdd : d = backoffDelay (retryDelaySec (sched m)) attempt).
      { subst d m2. simpl. destruct Hev1 as [Hs1 _].
        apply onlyRunning_fields in Hs1. f_equal. intuition congruence. }
      assert (Ho3 : out m3
                    = (out m ++ [EvAttempt apiName attempt st (Some e);
                                 EvTerminal (clock w) "ERR"
                                   ("⚠️ " ++ apiName ++ " attempt " ++ pretty (attempt + 1)
                                    ++ "/" ++ pretty (retryCount (sched (externalStop env m)) + 1)
                                    ++ " failed: " ++ Error e);
                                 EvWait d stopped])%list).
      { rewrite Hw. subst m2. simpl. rewrite Ho1, <- !app_assoc. reflexivity. }
      assert (Hfail : failedAttempt (attempt, st, Some e)) by (unfold failedAttempt; simpl; congruence).
      destruct stopped.
      * eexists. split; [exact Ho3|]. right; right; left.
        exists attempt, st, e, d. simpl. repeat split; auto.
      * destruct (IH (attempt + 1) (Some e) st m3) as (evs & Ho & Hcase).
        eexists (_ :: _ :: _ :: evs).
        split; [rewrite Ho, Ho3, <- !app_assoc; reflexivity|].
        destruct Hcase as [(prev & res' & st' & Hr & Ha & Hf & Hwt)
                          |[(Hr & Hf & Hlen)
                          |[(a' & st' & e' & d' & Hr & Hl & Hf & Hlw)
                          |(Hlen & Hf & st' & err' & Hr & Hl)]]].
        -- left. exists ((attempt, st, Some e) :: prev), res', st'.
           split; [exact Hr|].
           assert (Hidx : attempt + 1 + Z.of_nat (length prev)
                          = attempt + Z.of_nat (length ((attempt, st, Some e) :: prev)))
             by (simpl length; lia).
           cbn [attemptsOf waitsOf]. rewrite Ha, Hwt, Hd, Hdd, Hidx.
           split; [reflexivity|]. split; [constructor; assumption|reflexivity].
        -- right; left. simpl. split; [exact Hr|].
           split; [constructor; assumption|lia].
        -- right; right; left. exists a', st', e', d'. simpl attemptsOf. simpl waitsOf.
           split; [exact Hr|]. rewrite !last_cons, Hl, Hlw.
           split; [reflexivity|]. split; [constructor; assumption|reflexivity].
        -- right; right; right. simpl attemptsOf.
           split; [simpl; lia|]. split; [constructor; assumption|].
           exists st', err'. split; [exact Hr|].
           rewrite last_cons.
           destruct (last (attemptsOf evs)) as [[[a1 st1] err1]|] eqn:El; [exact Hl|].
           exact Hl.
    + eexists [_]. simpl. rewrite Ho1. split; [reflexivity|].
      left. exists [], res, st. simpl. rewrite Z.add_0_r. auto.
Qed.

Lemma Forall_last_holds {A : Type} (P : A -> Prop) (l : list A) (x : A) :
  Forall P l -> last l = Some x -> P x.
Proof.
  intros Hf Hl. rewrite Forall_forall in Hf. apply Hf.
  apply last_Some_elem_of. exact Hl.
Qed.

(** X2: A result without failure comes from an attempt that succeeded: with
    [retryCount >= 0] and backoff delays inside the range of
    [time.Duration], when [callWithRetry] returns no error, in any
    environment, the status it returns is that of the last attempt,
    that attempt succeeded, every attempt before it (at most
    [retryCount] of them) failed and was followed by its full backoff
    wait [retryDelaySec * 2^attempt], and the attempts are numbered
    from 0. *)
Theorem callWithRetry_success_from_last_attempt
    (env : Env) (apiName : string) (fn : apiCallFunc) (m : Machine)
    (res : string) (st : Z) :
  0 <= retryCount (sched m) ->
  delayInRange (retryDelaySec (sched m)) (retryCount (sched m)) ->
  fst (callWithRetry env apiName fn m) = (res, st, None) ->
  exists (evs : list Event) (prev : list (Z * Z * option error)),
    out (snd (callWithRetry env apiName fn m)) = (out m ++ evs)%list
    /\ attemptsOf evs = (prev ++ [(Z.of_nat (length prev), st, None)])%list
    /\ Z.of_nat (length prev) <= retryCount (sched m)
    /\ Forall failedAttempt prev
    /\ waitsOf evs
       = map (fun p => (retryDelaySec (sched m) * 2 ^ fst (fst p) * second, false)) prev.
Proof.
  intros Hn _ Hres. unfold callWithRetry in *.
  destruct (retryLoop_outcome env apiName fn
              (Z.to_nat (retryCount (sched m) + 1)) 0 None 0 m)
    as (evs & Ho & Hcase).
  destruct (retryLoop_bounded env apiName fn
              (Z.to_nat (retryCount (sched m) + 1)) 0 None 0 m)
    as (evs' & n & Ho' & _ & _ & Hle & Hidx & _).
  rewrite Ho in Ho'. apply app_inv_head in Ho'. subst evs'.
  rewrite Hres in Hcase.
  destruct Hcase as [(prev & res' & st' & Hr & Ha & Hf & Hwt)
                    |[(Hr & _)
                    |[(a' & st' & e' & d' & Hr & _)
                    |(Hlen & Hf & st' & err' & Hr & Hl)]]];
    try discriminate.
  - injection Hr as _ <-. exists evs, prev. rewrite Z.add_0_l in Ha.
    split; [exact Ho|]. split; [exact Ha|].
    split; [|split; [exact Hf|exact Hwt]].
    apply (f_equal (@length _)) in Hidx.
    rewrite length_map, upFrom_length, Ha, length_app in Hidx. simpl in Hidx. lia.
  - exfalso. injection Hr as _ <- <-.
    destruct (last (attemptsOf evs)) as [[[a1 st1] err1]|] eqn:El.
    + destruct Hl as [_ <-].
      apply (Forall_last_holds failedAttempt _ _ Hf El). reflexivity.
    + apply last_None in El. rewrite El in Hlen. simpl in Hlen. lia.
Qed.

Lemma callWithRetry_success_from_last_attempt_witness :
  exists (evs : list Event) (prev : list (Z * Z * option error)),
    out (snd (callWithRetry quietEnv "A" opFlaky (sampleMachine 0 2 5)))
    = (out (sampleMachine 0 2 5) ++ evs)%list
    /\ attemptsOf evs = (prev ++ [(Z.of_nat (length prev), 200, None)])%list
    /\ Z.of_nat (length prev) <= 2
    /\ Forall failedAttempt prev
    /\ waitsOf evs = map (fun p => (5 * 2 ^ fst (fst p) * second, false)) prev
    /\ prev = [(0, 503, Some (errorString "unavailable"))].
Proof.
  destruct (callWithRetry_success_from_last_attempt quietEnv "A" opFlaky
              (sampleMachine 0 2 5) "fine" 200)
    as (evs & prev & Ho & Ha & Hlen & Hf & Hw);
    [vm_compute; discriminate
    | split; [vm_compute; discriminate | vm_compute; reflexivity]
    | reflexivity |].
  exists evs, prev.
  split; [exact Ho|]. split; [exact Ha|]. split; [exact Hlen|].
  split; [exact Hf|]. split; [exact Hw|].
  vm_compute in Ho. subst evs.
  change ([(0, 503, Some (errorString "unavailable")); (1, 200, None)]
          = (prev ++ [(Z.of_nat (length prev), 200, None)])%list) in Ha.
  apply (app_inj_tail [(0, 503, Some (errorString "unavailable"))] prev) in Ha.
  symmetry. exact (proj1 Ha).
Defined.

(** X3: A failure returned by [callWithRetry] is never an early give-up:
    with [retryCount >= 0], in any environment, the message is empty,
    every attempt made has failed, and either the stop signal was seen
    before an attempt (error "stopped", status 0, fewer than
    [retryCount+1] attempts), or it cut a backoff wait short (error
    "stopped during retry", status of the last attempt), or exactly
    [retryCount+1] attempts were made and the status and failure are
    those of attempt [retryCount]. *)
Theorem callWithRetry_failure_cases
    (env : Env) (apiName : string) (fn : apiCallFunc) (m : Machine)
    (res : string) (st : Z) (e : error) :
  0 <= retryCount (sched m) ->
  fst (callWithRetry env apiName fn m) = (res, st, Some e) ->
  exists evs : list Event,
    out (snd (callWithRetry env apiName fn m)) = (out m ++ evs)%list
    /\ res = ""
    /\ Forall failedAttempt (attemptsOf evs)
    /\ ((e = errorString "stopped" /\ st = 0
         /\ Z.of_nat (length (attemptsOf evs)) < retryCount (sched m) + 1)
        \/ (e = errorString "stopped during retry"
            /\ (exists (a : Z) (e' : error),
                  last (attemptsOf evs) = Some (a, st, Some e'))
            /\ exists d : Z, last (waitsOf evs) = Some (d, true))
        \/ (Z.of_nat (length (attemptsOf evs)) = retryCount (sched m) + 1
            /\ exists a : Z, last (attemptsOf evs) = Some (a, st, Some e))).
Proof.
  intros Hn Hres. unfold callWithRetry in *.
  destruct (retryLoop_outcome env apiName fn
              (Z.to_nat (retryCount (sched m) + 1)) 0 None 0 m)
    as (evs & Ho & Hcase).
  rewrite Hres in Hcase. exists evs. split; [exact Ho|].
  destruct Hcase as [(prev & res' & st' & Hr & _)
                    |[(Hr & Hf & Hlen)
                    |[(a' & st' & e' & d' & Hr & Hl & Hf & Hlw)
                    |(Hlen & Hf & st' & err' & Hr & Hl)]]].
  - discriminate.
  - injection Hr as -> -> ->. split; [reflexivity|]. split; [exact Hf|].
    left. split; [reflexivity|]. split; [reflexivity|]. lia.
  - injection Hr as -> <- ->. split; [reflexivity|]. split; [exact Hf|].
    right; left. split; [reflexivity|].
    split; [exists a', e'; exact Hl|exists d'; exact Hlw].
  - injection Hr as -> <- <-. split; [reflexivity|]. split; [exact Hf|].
    right; right. split; [lia|].
    destruct (last (attemptsOf evs)) as [[[a1 st1] err1]|] eqn:El.
    + destruct Hl as [-> Herr]. exists a1. congruence.
    + apply last_None in El. rewrite El in Hlen. simpl in Hlen. lia.
Qed.

Lemma callWithRetry_failure_cases_witness :
  exists evs : list Event,
    out (snd (callWithRetry (stopEnv 2000000000) "A" opDown (startedMachine 0 2 5)))
    = (out (startedMachine 0 2 5) ++ evs)%list
    /\ "" = ""
    /\ Forall failedAttempt (attemptsOf evs)
    /\ ((errorString "stopped during retry" = errorString "stopped" /\ 503 = 0
         /\ Z.of_nat (length (attemptsOf evs)) < 2 + 1)
        \/ (errorString "stopped during retry" = errorString "stopped during retry"
            /\ (exists (a : Z) (e' : error),
                  last (attemptsOf evs) = Some (a, 503, Some e'))
            /\ exists d : Z, last (waitsOf evs) = Some (d, true))
        \/ (Z.of_nat (length (attemptsOf evs)) = 2 + 1
            /\ exists a : Z,
                 last (attemptsOf evs)
                 = Some (a, 503, Some (errorString "stopped during retry")))).
Proof.
  apply (callWithRetry_failure_cases (stopEnv 2000000000) "A" opDown
           (startedMachine 0 2 5) "" 503 (errorString "stopped during retry"));
    [vm_compute; discriminate | vm_compute; reflexivity].
Defined.

(** ** One cycle in any environment *)

Lemma runOps_rows (env : Env) :
  forall (names : list string) (i : Z) (m : Machine),
    forallb (fun name => bool_decide (is_Some (apiCalls (sched m) !! name))) names = true ->
    exists (b : bool) (m' : Machine) (evs : list Event) (rest : list string),
      runOps env i names m = Some (b, m')
      /\ out m' = (out m ++ evs)%list
      /\ cycles evs = 0%nat
      /\ names = (rowsOf evs ++ rest)%list
      /\ (b = true -> rest = [])
      /\ (b = false -> rowsOf evs <> [] /\ isClosed m' = true
                       /\ exists (j : Z) (name msg : string) (ok : bool),
                            last evs = Some (EvRow j name msg ok)).
Proof.
  induction names as [|apiName names IH]; intros i m Hreg.
  - exists true, m, [], []. simpl. rewrite app_nil_r.
    repeat split; auto; discriminate.
  - simpl in Hreg. apply andb_prop in Hreg as [Hhd Htl].
    apply bool_decide_eq_true in Hhd. destruct Hhd as [fn Hfn].
    cbn [runOps]. rewrite Hfn.
    destruct (retryLoop_bounded env apiName fn
                (Z.to_nat (retryCount (sched m) + 1)) 0 None 0 m)
      as (evs1 & j1 & Ho1 & Hrw1 & Hcy1 & _).
    change (retryLoop env apiName fn (Z.to_nat (retryCount (sched m) + 1)) 0 None 0 m)
      with (callWithRetry env apiName fn m) in Ho1.
    pose proof (evolves_callWithRetry env apiName fn m) as Hev1.
    destruct (callWithRetry env apiName fn m) as [[[res status] err] m1].
    simpl in Ho1, Hev1.
    set (msg := match err with
                | Some e => Error e ++ " (status=" ++ pretty status ++ ")"
                | None => res ++ " (status=" ++ pretty status ++ ")"
                end).
    set (row := EvRow i apiName msg (bool_decide (err = None))).
    unfold stopRequested.
    destruct (externalStop_frame env (emit row m1)) as [Hw2 Ho2].
    pose proof (evolves_externalStop env (emit row m1)) as Hev2.
    set (m2 := externalStop env (emit row m1)) in *.
    assert (Hout2 : out m2 = (out m ++ evs1 ++ [row])%list).
    { rewrite Ho2. simpl. rewrite Ho1, <- app_assoc. reflexivity. }
    destruct (isClosed m2) eqn:Ecl.
    + exists false, m2, (evs1 ++ [row])%list, names.
      split; [reflexivity|]. split; [exact Hout2|].
      split; [rewrite cycles_app, Hcy1; reflexivity|].
      split; [rewrite rowsOf_app, Hrw1; reflexivity|].
      split; [discriminate|]. intros _.
      split; [rewrite rowsOf_app, Hrw1; discriminate|].
      split; [exact Ecl|].
      exists i, apiName, msg, (bool_decide (err = None)). apply last_snoc.
    + destruct (clientDo _ _ _) as [r w].
      assert (Hcalls : apiCalls (sched (setWorld w m2)) = apiCalls (sched m)).
      { destruct Hev1 as [Hs1 _]. destruct Hev2 as [Hs2 _].
        apply onlyRunning_fields in Hs1. apply onlyRunning_fields in Hs2.
        simpl in *. intuition congruence. }
      destruct (IH (i + 1) (setWorld w m2)) as (b & m' & evs & rest & Hr & Ho & Hcy & Hn & Hb & Hnb).
      { rewrite Hcalls. exact Htl. }
      exists b, m', (evs1 ++ row :: evs)%list, rest.
      split; [exact Hr|].
      split; [rewrite Ho; simpl; rewrite Hout2, <- !app_assoc; reflexivity|].
      split; [rewrite cycles_app, Hcy1; exact Hcy|].
      split; [rewrite rowsOf_app, Hrw1; simpl; rewrite Hn; reflexivity|].
      split; [exact Hb|]. intros Hfalse.
      destruct (Hnb Hfalse) as (Hne & Hcl & j & name & msg' & ok & Hl).
      split; [rewrite rowsOf_app, Hrw1; discriminate|].
      split; [exact Hcl|].
      exists j, name, msg', ok.
      rewrite last_app, last_cons, Hl. reflexivity.
Qed.

Lemma runOnce_total (env : Env) (m : Machine) :
  registered (sched m) = true -> exists m' : Machine, runOnce env m = Some m'.
Proof.
  intros Hreg. unfold runOnce.
  set (m0 := emit (EvRunStarted (clock (world m))) m).
  destruct (runOps_rows env (apiOrder (sched m0)) 0 m0 Hreg)
    as (b & m' & evs & rest & Hr & _).
  rewrite Hr. destruct b; eauto.
Qed.

(** X4: A cycle never calls a missing callable and never reorders: for a
    scheduler whose execution order has a callable for every name,
    [runOnce] returns in every environment, counts as one cycle, and
    writes its rows for a prefix of the execution order, in order.  The
    prefix is the whole order and the closing banner is written,
    unless the cycle was abandoned; that happens only with the stop
    channel closed, after at least one row, and then the last thing
    written is a row. *)
Theorem runOnce_rows_prefix (env : Env) (m : Machine) :
  registered (sched m) = true ->
  exists (m' : Machine) (evs : list Event) (rest : list string),
    runOnce env m = Some m'
    /\ out m' = (out m ++ evs)%list
    /\ cycles evs = 1%nat
    /\ apiOrder (sched m) = (rowsOf evs ++ rest)%list
    /\ ((rest = [] /\ last evs = Some EvRunCompleted)
        \/ (rowsOf evs <> [] /\ isClosed m' = true
            /\ exists (j : Z) (name msg : string) (ok : bool),
                 last evs = Some (EvRow j name msg ok))).
Proof.
  intros Hreg. unfold runOnce.
  set (m0 := emit (EvRunStarted (clock (world m))) m).
  destruct (runOps_rows env (apiOrder (sched m0)) 0 m0 Hreg)
    as (b & m' & evs & rest & Hr & Ho & Hcy & Hn & Hb & Hnb).
  rewrite Hr. destruct b.
  - exists (emit EvRunCompleted m'),
      (EvRunStarted (clock (world m)) :: evs ++ [EvRunCompleted])%list, rest.
    split; [reflexivity|].
    split; [simpl; rewrite Ho; subst m0; simpl; rewrite <- !app_assoc; reflexivity|].
    split.
    { change (cycles (EvRunStarted _ :: ?l)) with (S (cycles l)).
      rewrite cycles_snoc, Hcy. reflexivity. }
    split.
    { simpl. rewrite rowsOf_app. simpl. rewrite app_nil_r. exact Hn. }
    left. split; [apply Hb; reflexivity|].
    rewrite last_cons, last_snoc. reflexivity.
  - exists m', (EvRunStarted (clock (world m)) :: evs)%list, rest.
    split; [reflexivity|].
    split; [rewrite Ho; subst m0; simpl; rewrite <- !app_assoc; reflexivity|].
    split.
    { change (cycles (EvRunStarted _ :: ?l)) with (S (cycles l)). rewrite Hcy. reflexivity. }
    split; [exact Hn|].
    right. destruct (Hnb eq_refl) as (Hne & Hcl & j & name & msg & ok & Hl).
    split; [exact Hne|]. split; [exact Hcl|].
    exists j, name, msg, ok. rewrite last_cons, Hl. reflexivity.
Qed.

Lemma runOnce_rows_prefix_witness :
  exists (m' : Machine) (evs : list Event) (rest : list string),
    runOnce (stopEnv 3000) (builtMachine 0) = Some m'
    /\ out m' = (out (builtMachine 0) ++ evs)%list
    /\ cycles evs = 1%nat
    /\ apiOrder (sched (builtMachine 0)) = (rowsOf evs ++ rest)%list
    /\ ((rest = [] /\ last evs = Some EvRunCompleted)
        \/ (rowsOf evs <> [] /\ isClosed m' = true
            /\ exists (j : Z) (name msg : string) (ok : bool),
                 last evs = Some (EvRow j name msg ok))).
Proof.
  apply (runOnce_rows_prefix (stopEnv 3000) (builtMachine 0)).
  vm_compute. reflexivity.
Defined.

(** X5: Registration keeps the registry consistent: if every name of the
    execution order has a callable, this is still so after
    [RegisterAPI], for a new name and for a name registered again. *)
Theorem RegisterAPI_keeps_registered
    (name : string) (fn : apiCallFunc) (s : Scheduler) :
  registered s = true -> registered (RegisterAPI name fn s) = true.
Proof.
  unfold registered. simpl. intros Hreg.
  rewrite forallb_app. apply andb_true_intro. split.
  - rewrite forallb_forall in Hreg |- *. intros x Hx.
    specialize (Hreg x Hx). apply bool_decide_eq_true in Hreg.
    apply bool_decide_eq_true.
    destruct (decide (name = x)) as [->|Hne].
    + rewrite lookup_insert_eq. eauto.
    + rewrite lookup_insert_ne by exact Hne. exact Hreg.
  - simpl. rewrite lookup_insert_eq. reflexivity.
Qed.

Lemma RegisterAPI_keeps_registered_witness :
  registered (RegisterAPI "A" opDown (sched (sampleMachine 0 0 0))) = true.
Proof.
  apply (RegisterAPI_keeps_registered "A" opDown (sched (sampleMachine 0 0 0))).
  reflexivity.
Defined.

(** ** The wait group *)

Lemma evolves_logTerminal (level msg : string) (m : Machine) :
  evolves m (logTerminal level msg m).
Proof. apply evolves_emit. Qed.

Lemma evolves_Stop (m : Machine) :
  match Stop m with
  | StopReturned m' | StopParked m' => evolves m m'
  end.
Proof.
  unfold Stop. destruct (running (sched m)); simpl; [|apply evolves_refl].
  assert (H1 : evolves m (logTerminal "INF" "🛑 Scheduler stopping..." (stopLocked m))).
  { eapply evolves_trans; [apply evolves_stopLocked|apply evolves_logTerminal]. }
  unfold stopJoin. destruct (_ =? 0); [|exact H1].
  eapply evolves_trans; [exact H1|apply evolves_logTerminal].
Qed.

Lemma evolves_wg (m m' : Machine) : evolves m m' -> wg (sched m') = wg (sched m).
Proof. intros [Hs _]. apply onlyRunning_fields in Hs. intuition. Qed.

Lemma evolves_registered (m m' : Machine) :
  evolves m m' -> registered (sched m') = registered (sched m).
Proof.
  intros [Hs _]. apply onlyRunning_fields in Hs. unfold registered.
  destruct Hs as (_ & _ & _ & _ & _ & _ & _ & _ & -> & ->). reflexivity.
Qed.

Lemma evolves_runCount (m m' : Machine) :
  evolves m m' -> runCount (sched m') = runCount (sched m).
Proof. intros [Hs _]. apply onlyRunning_fields in Hs. intuition. Qed.

(** With a positive wait group, a [Stop] that returns was a no-op. *)
Lemma Stop_returned_noop (m m' : Machine) :
  wg (sched m) <> 0 -> Stop m = StopReturned m' -> m' = m /\ running (sched m) = false.
Proof.
  intros Hw. unfold Stop. destruct (running (sched m)) eqn:E; simpl.
  - rewrite (Stop_parks m E Hw) || idtac.
    unfold stopJoin. simpl.
    assert (Hwg : wg (sched (stopLocked m)) = wg (sched m)).
    { unfold stopLocked. rewrite E. reflexivity. }
    rewrite Hwg. destruct (Z.eqb_spec (wg (sched m)) 0); [contradiction|discriminate].
  - intros H. injection H as <-. auto.
Qed.

Lemma loopFrom_wait_group (env : Env) :
  forall (fuel : nat) (interval count : Z) (m : Machine),
    registered (sched m) = true -> 0 < wg (sched m) ->
    match loopFrom env fuel interval count m with
    | LoopReturned m' =>
      wg (sched m') = wg (sched m) - 1 /\ last (out m') = Some EvLoopReturned
    | LoopParked m' => wg (sched m') = wg (sched m) /\ running (sched m') = false
    | LoopOutOfFuel m' => wg (sched m') = wg (sched m)
    | LoopPanicked => False
    end.
Proof.
  induction fuel as [|fuel IH]; intros interval count m Hreg Hw; [reflexivity|].
  cbn [loopFrom].
  pose proof (evolves_waitOrStop env interval m) as H1.
  destruct (waitOrStop env interval m) as [stopped m1]. simpl in H1.
  pose proof (evolves_wg _ _ H1) as Hw1.
  destruct stopped.
  - unfold wgDone. cbv zeta. cbn [sched logTerminal emit]. rewrite Hw1.
    destruct (Z.ltb_spec (wg (sched m) - 1) 0); [lia|].
    split; [reflexivity|apply last_snoc].
  - pose proof (evolves_registered _ _ H1) as Hr1.
    destruct (runOnce_total env m1) as (m2 & Hr2).
    { rewrite Hr1. exact Hreg. }
    rewrite Hr2.
    pose proof (evolves_runOnce env m1 m2 Hr2) as H2.
    assert (H02 : evolves m m2) by (eapply evolves_trans; eassumption).
    pose proof (evolves_wg _ _ H02) as Hw2.
    destruct (_ && _).
    + match goal with |- context [Stop ?M] =>
        set (m3 := M);
        assert (H3 : evolves m m3)
          by (eapply evolves_trans; [exact H02|];
              eapply evolves_trans; [apply evolves_logTerminal|apply evolves_externalStop])
      end.
      pose proof (evolves_wg _ _ H3) as Hw3.
      pose proof (Stop_not_running m3) as Hnr.
      pose proof (evolves_Stop m3) as H4.
      destruct (Stop m3) as [m4|m4] eqn:Es.
      * apply Stop_returned_noop in Es; [|lia]. destruct Es as [Em _]. subst m4.
        unfold wgDone. cbv zeta. rewrite Hw3.
        destruct (Z.ltb_spec (wg (sched m) - 1) 0); [lia|]. cbn [sched setSched wg setLifecycle].
        split; [reflexivity|apply last_snoc].
      * split; [|exact Hnr]. rewrite (evolves_wg _ _ H4). exact Hw3.
    + specialize (IH interval (count + 1) m2).
      rewrite (evolves_registered _ _ H02), Hw2 in IH.
      apply IH; assumption.
Qed.

Lemma runLoop_returned_wg (env : Env) (fuel : nat) (m m' : Machine) :
  registered (sched m) = true -> 0 < wg (sched m) ->
  runLoop env fuel m = LoopReturned m' ->
  wg (sched m') = wg (sched m) - 1.
Proof.
  intros Hreg Hw Hl. unfold runLoop in Hl.
  destruct (runOnce env m) as [m1|] eqn:Hr1; [|discriminate].
  pose proof (evolves_runOnce env m m1 Hr1) as H1.
  pose proof (loopFrom_wait_group env fuel
                (intervalDuration (intervalMinutes (sched m1))) 1 m1) as H.
  rewrite (evolves_registered _ _ H1), (evolves_wg _ _ H1), Hl in H.
  apply H; assumption.
Qed.

(** X7: After a run that ended at the ceiling the scheduler cannot be
    stopped cleanly again: if the wait group is already positive when
    [Start] succeeds (a loop of an earlier run never returned), then
    whenever the new loop returns the wait group is still positive, so
    the [wg.Wait()] of the [Stop] that ended the run never finishes. *)
Theorem restart_with_leaked_loop_never_joins
    (m m1 : Machine) (env : Env) (fuel : nat) (m2 : Machine) :
  registered (sched m) = true ->
  0 < wg (sched m) ->
  Start m = (None, m1) ->
  runLoop env fuel m1 = LoopReturned m2 ->
  wg (sched m2) = wg (sched m) /\ stopJoin m2 = None.
Proof.
  intros Hreg Hw Hs Hl.
  assert (Hm1 : registered (sched m1) = true /\ wg (sched m1) = wg (sched m) + 1).
  { unfold Start in Hs. destruct (running (sched m)); [discriminate|].
    injection Hs as <-. simpl. split; [exact Hreg|reflexivity]. }
  destruct Hm1 as [Hreg1 Hw1].
  pose proof (runLoop_returned_wg env fuel m1 m2 Hreg1 ltac:(lia) Hl) as Hwg.
  assert (Hw2 : wg (sched m2) = wg (sched m)) by lia.
  split; [exact Hw2|].
  unfold stopJoin. rewrite Hw2.
  destruct (Z.eqb_spec (wg (sched m)) 0); [lia|reflexivity].
Qed.

Lemma restart_with_leaked_loop_never_joins_witness :
  exists m1 m2 : Machine,
    Start afterCeiling = (None, m1)
    /\ runLoop (stopEnv 6000017000) 5 m1 = LoopReturned m2
    /\ wg (sched m2) = wg (sched afterCeiling)
    /\ stopJoin m2 = None.
Proof.
  eexists _, _.
  split; [vm_compute; reflexivity|].
  split; [vm_compute; reflexivity|].
  eapply (restart_with_leaked_loop_never_joins afterCeiling _
            (stopEnv 6000017000) 5%nat _);
    [vm_compute; reflexivity | vm_compute; reflexivity
    | vm_compute; reflexivity | vm_compute; reflexivity].
Defined.

(** ** Leaving the loop *)

(** X8: A [Stop()] that arrives while the loop waits for the next tick ends
    the loop at that instant: no further cycle is started, no operation
    is attempted, the loop writes its exit line, gives its unit back to
    the wait group and returns; with a wait group of one the caller's
    [wg.Wait()] can then finish. *)
Theorem loop_stopped_during_tick_wait
    (env : Env) (fuel : nat) (interval count : Z) (m : Machine) (t : Z) :
  stopAt env = Some t ->
  running (sched m) = true ->
  chans m !! stopChan (sched m) = Some false ->
  0 < wg (sched m) ->
  clock (world m) < t -> t < clock (world m) + interval ->
  exists m' : Machine,
    loopFrom env (S fuel) interval count m = LoopReturned m'
    /\ clock (world m') = t
    /\ out m'
       = (out m ++ [EvWait interval true;
                    EvTerminal t "INF" "⏹ Received stop signal, exiting runLoop";
                    EvLoopReturned])%list
    /\ running (sched m') = false
    /\ wg (sched m') = wg (sched m) - 1
    /\ (wg (sched m) = 1 -> exists m'' : Machine, stopJoin m' = Some m'').
Proof.
  intros Hs Hrun Hopen Hw Hnow Hlt.
  cbn [loopFrom]. unfold waitOrStop.
  rewrite (externalStop_early env m t Hs Hnow).
  rewrite (isClosed_open m Hopen), Hs.
  destruct (Z.ltb_spec (clock (world m)) t) as [_|]; [|lia].
  rewrite Z.max_r by lia. rewrite Z.min_l by lia.
  match goal with |- context [externalStop env ?M] => set (m1 := M) end.
  rewrite (externalStop_due env m1 t Hs) by (simpl; lia).
  destruct (stopLocked_closes m1 Hrun Hopen) as [Hcl Hnr].
  destruct (stopLocked_frame m1) as [Hwd Hout].
  assert (Hwg : wg (sched (stopLocked m1)) = wg (sched m)).
  { unfold stopLocked. change (running (sched m1)) with (running (sched m)).
    rewrite Hrun. reflexivity. }
  rewrite Hcl.
  destruct (Z.ltb_spec t (clock (world m) + interval)) as [_|]; [|lia].
  cbn [andb orb]. unfold wgDone. cbv zeta.
  cbn [sched logTerminal emit wg]. rewrite Hwg.
  destruct (Z.ltb_spec (wg (sched m) - 1) 0); [lia|].
  eexists. split; [reflexivity|].
  cbn [world out sched emit setSched setLifecycle running wg logTerminal].
  rewrite Hwd, Hout, Hnr.
  split; [reflexivity|].
  split; [rewrite <- !app_assoc; reflexivity|].
  split; [reflexivity|]. split; [reflexivity|].
  intros H1. unfold stopJoin. cbn [sched wg setLifecycle].
  rewrite H1. simpl. eauto.
Qed.

Lemma loop_stopped_during_tick_wait_witness :
  exists m' : Machine,
    loopFrom (stopEnv 50000000) 1 600000000000 1 (builtMachine 0) = LoopReturned m'
    /\ clock (world m') = 50000000
    /\ out m'
       = (out (builtMachine 0)
          ++ [EvWait 600000000000 true;
              EvTerminal 50000000 "INF" "⏹ Received stop signal, exiting runLoop";
              EvLoopReturned])%list
    /\ running (sched m') = false
    /\ wg (sched m') = wg (sched (builtMachine 0)) - 1
    /\ (wg (sched (builtMachine 0)) = 1 -> exists m'' : Machine, stopJoin m' = Some m'').
Proof.
  apply (loop_stopped_during_tick_wait (stopEnv 50000000) 0 600000000000 1
           (builtMachine 0) 50000000);
    [reflexivity | reflexivity | reflexivity | vm_compute; reflexivity
    | vm_compute; reflexivity | vm_compute; reflexivity].
Defined.

Lemma loopFrom_unbounded (env : Env) (interval : Z) :
  stopAt env = None ->
  forall (fuel : nat) (count : Z) (m : Machine),
    runCount (sched m) <= 0 ->
    isClosed m = false ->
    registered (sched m) = true ->
    exists m' : Machine,
      loopFrom env fuel interval count m = LoopOutOfFuel m'
      /\ cycles (out m') = (cycles (out m) + fuel)%nat
      /\ sched m' = sched m /\ chans m' = chans m.
Proof.
  intros Hq. induction fuel as [|fuel IH]; intros count m HN Hc Hreg.
  - exists m. simpl. split; [reflexivity|]. split; [lia|]. auto.
  - cbn [loopFrom]. rewrite waitOrStop_quiet by assumption.
    match goal with |- context [runOnce env ?M] => set (m1 := M) end.
    destruct (runOnce_quiet env m1 Hq Hc Hreg)
      as (m2 & evs & Hr2 & Ho2 & Hcy & _ & Hs2 & Hch2).
    rewrite Hr2.
    assert (Hs : sched m2 = sched m) by (rewrite Hs2; reflexivity).
    assert (Hch : chans m2 = chans m) by (rewrite Hch2; reflexivity).
    rewrite Hs.
    destruct (Z.ltb_spec 0 (runCount (sched m))) as [|_]; [lia|]. cbn [andb].
    destruct (IH (count + 1) m2) as (m' & Hl & Hcy' & Hs' & Hch').
    + rewrite Hs. exact HN.
    + unfold isClosed in *. rewrite Hs, Hch. exact Hc.
    + rewrite Hs. exact Hreg.
    + exists m'. split; [exact Hl|].
      split.
      { rewrite Hcy', Ho2, cycles_app, Hcy. subst m1. cbn [out emit setWorld].
        rewrite cycles_snoc. cbn [isRunStarted]. lia. }
      split; congruence.
Qed.

(** X9: Without a positive ceiling the loop never ends on its own: with
    [runCount <= 0] (zero, or a negative number) and nobody calling
    [Stop], however many ticks pass the loop is still going, has run
    one cycle at the start and one per tick, and has left the scheduler
    state, [running] included, as it was. *)
Theorem runLoop_unbounded_never_stops (env : Env) (fuel : nat) (m : Machine) :
  runCount (sched m) <= 0 ->
  stopAt env = None -> isClosed m = false -> registered (sched m) = true ->
  exists m' : Machine,
    runLoop env fuel m = LoopOutOfFuel m'
    /\ cycles (out m') = (cycles (out m) + fuel + 1)%nat
    /\ sched m' = sched m
    /\ isClosed m' = false.
Proof.
  intros HN Hq Hc Hreg. unfold runLoop.
  destruct (runOnce_quiet env m Hq Hc Hreg) as (m1 & evs & Hr1 & Ho1 & Hcy & _ & Hs & Hch).
  rewrite Hr1.
  destruct (loopFrom_unbounded env (intervalDuration (intervalMinutes (sched m1))) Hq
              fuel 1 m1) as (m' & Hl & Hcy' & Hs' & Hch').
  - rewrite Hs. exact HN.
  - unfold isClosed in *. rewrite Hs, Hch. exact Hc.
  - rewrite Hs. exact Hreg.
  - exists m'. split; [exact Hl|].
    split; [rewrite Hcy', Ho1, cycles_app, Hcy; lia|].
    split; [congruence|].
    unfold isClosed in *. rewrite Hs', Hch', Hs, Hch. exact Hc.
Qed.

Lemma runLoop_unbounded_never_stops_witness :
  exists m' : Machine,
    runLoop quietEnv 4 (builtMachine (-3)) = LoopOutOfFuel m'
    /\ cycles (out m') = (cycles (out (builtMachine (-3))) + 4 + 1)%nat
    /\ sched m' = sched (builtMachine (-3))
    /\ isClosed m' = false.
Proof.
  apply (runLoop_unbounded_never_stops quietEnv 4 (builtMachine (-3)));
    [vm_compute; discriminate | reflexivity | reflexivity | vm_compute; reflexivity].
Defined.

(** ** Lifecycle invariants *)

Lemma Start_opens (m m' : Machine) :
  Start m = (None, m') ->
  running (sched m) = false
  /\ running (sched m') = true
  /\ stopChan (sched m') = length (chans m)
  /\ chans m' = (chans m ++ [false])%list
  /\ wg (sched m') = wg (sched m) + 1
  /\ isClosed m' = false.
Proof.
  unfold Start. destruct (running (sched m)) eqn:E; [discriminate|].
  intros H. injection H as <-. simpl.
  repeat split; try reflexivity.
  apply isClosed_open. simpl.
  rewrite lookup_app_r by lia. rewrite Nat.sub_diag. reflexivity.
Qed.

Lemma Start_keeps (m : Machine) :
  closedMeansStopped m -> closedMeansStopped (snd (Start m)).
Proof.
  intros Hi. destruct (Start m) as [[e|] m'] eqn:Es; simpl.
  - unfold Start in Es. destruct (running (sched m)); [|discriminate].
    injection Es as _ <-. exact Hi.
  - apply Start_opens in Es. destruct Es as (_ & _ & _ & _ & _ & Hcl).
    intros Hc. congruence.
Qed.

Lemma loopFrom_keeps (env : Env) :
  forall (fuel : nat) (interval count : Z) (m : Machine),
    closedMeansStopped m ->
    match loopFrom env fuel interval count m with
    | LoopReturned m' | LoopParked m' | LoopOutOfFuel m' => closedMeansStopped m'
    | LoopPanicked => True
    end.
Proof.
  induction fuel as [|fuel IH]; intros interval count m Hi; [exact Hi|].
  cbn [loopFrom].
  destruct (waitOrStop_keeps env interval m Hi) as [H1 _].
  destruct (waitOrStop env interval m) as [stopped m1]. simpl in H1.
  destruct stopped.
  - unfold wgDone. cbv zeta. destruct (_ <? 0); [exact I|]. exact H1.
  - destruct (runOnce env m1) as [m2|] eqn:E2; [|exact I].
    pose proof (runOnce_keeps env m1 m2 H1 E2) as H2.
    destruct (_ && _).
    + match goal with |- context [Stop ?M] =>
        pose proof (Stop_not_running M) as Hs; destruct (Stop M) as [m3|m3]
      end.
      * unfold wgDone. cbv zeta. destruct (_ <? 0); [exact I|].
        intros _. exact Hs.
      * intros _. exact Hs.
    + apply IH. exact H2.
Qed.



(** X10: [running] and a raised stop signal exclude each other: if the stop
    channel is closed only when [running] is false, as it is on a
    scheduler in which [running] is false, then [Start], [Stop] and
    the background loop, in any environment and however it ends, keep
    it so; whenever [IsRunning] answers true the stop channel of the
    current run is not closed. *)
Theorem stop_signal_excludes_running (m : Machine) :
  closedMeansStopped m ->
  closedMeansStopped (snd (Start m))
  /\ match Stop m with
     | StopReturned m' | StopParked m' => closedMeansStopped m'
     end
  /\ (forall (env : Env) (fuel : nat),
        match runLoop env fuel m with
        | LoopReturned m' | LoopParked m' | LoopOutOfFuel m' =>
          closedMeansStopped m' /\ (IsRunning m' = true -> isClosed m' = false)
        | LoopPanicked => True
        end).
Proof.
  intros Hi. split; [apply Start_keeps; exact Hi|]. split.
  - pose proof (Stop_not_running m) as Hs.
    destruct (Stop m); intros _; exact Hs.
  - intros env fuel. unfold runLoop.
    destruct (runOnce env m) as [m1|] eqn:E1; [|exact I].
    pose proof (runOnce_keeps env m m1 Hi E1) as H1.
    pose proof (loopFrom_keeps env fuel
                  (intervalDuration (intervalMinutes (sched m1))) 1 m1 H1) as Hl.
    assert (Hgen : forall m', closedMeansStopped m' ->
                     closedMeansStopped m' /\ (IsRunning m' = true -> isClosed m' = false)).
    { intros m' Hc. split; [exact Hc|]. unfold IsRunning. intros Hr.
      destruct (isClosed m') eqn:Ec; [|reflexivity].
      rewrite (Hc Ec) in Hr. discriminate. }
    destruct (loopFrom env fuel _ 1 m1); auto.
Qed.

Lemma stop_signal_excludes_running_witness :
  closedMeansStopped (snd (Start (builtMachine 0)))
  /\ match Stop (builtMachine 0) with
     | StopReturned m' | StopParked m' => closedMeansStopped m'
     end
  /\ (forall (env : Env) (fuel : nat),
        match runLoop env fuel (builtMachine 0) with
        | LoopReturned m' | LoopParked m' | LoopOutOfFuel m' =>
          closedMeansStopped m' /\ (IsRunning m' = true -> isClosed m' = false)
        | LoopPanicked => True
        end).
Proof.
  apply (stop_signal_excludes_running (builtMachine 0)).
  intros Hc. vm_compute in Hc. discriminate.
Defined.



(** ** The API calls *)

(** X12: Every API call asks the client at most once and reports what the
    client said: [callSendMessage] and [callGetUpdates] make exactly
    one request, a media call makes one when its file exists and none
    otherwise; the status returned is the status of the client's
    answer (0 when nothing was sent); a failure is always an
    [APIError] that names the call and carries that status; and a
    failure of the client is always reported as a failure. *)
Theorem api_calls_one_request
    (rfc3339 : Z -> string) (unmarshalUpdates : string -> string + (bool * Z))
    (id : Z) (c : TelegramClient) (w : World) :
  let answered (op : string) (r : Request) (out : apiResult * World) :=
    sent (snd out) = (sent w ++ [r])%list
    /\ snd (fst (fst out)) = code (remote w c (sent w) r)
    /\ apiErrorOf op (code (remote w c (sent w) r)) (snd (fst out))
    /\ (failure (remote w c (sent w) r) <> None -> snd (fst out) <> None) in
  let media (op : string) (path : string) (r : Request) (out : apiResult * World) :=
    if stat w path then answered op r out
    else sent (snd out) = sent w /\ snd (fst (fst out)) = 0 /\ snd (fst out) = None in
  answered "SendMessage"
    (SendMessageRaw id ("🚀 Scheduler: Test message sent at " ++ rfc3339 (clock w)))
    (callSendMessage rfc3339 id c w)
  /\ answered "GetUpdates" (FetchUpdatesRaw "?offset=0&limit=100&timeout=0")
       (callGetUpdates unmarshalUpdates c w)
  /\ media "SendGIF" "./uploads/happy.gif"
       (SendAnimationRaw id "./uploads/happy.gif" "🎉 Scheduler test GIF")
       (callSendGIF id c w)
  /\ media "SendVoice" "./uploads/test.ogg"
       (SendVoiceRaw id "./uploads/test.ogg" "🎙 Scheduler test voice")
       (callSendVoice id c w)
  /\ media "SendVideo" "./uploads/test_small.mp4"
       (SendVideoRaw id "./uploads/test_small.mp4" "🎥 Scheduler test video")
       (callSendVideo id c w).
Proof.
  cbv zeta.
  split; [|split; [|split; [|split]]].
  - unfold callSendMessage, clientDo. simpl.
    destruct (failure (remote w c (sent w) _)) as [e|];
      simpl; repeat split; auto; try congruence.
  - unfold callGetUpdates, clientDo. simpl.
    destruct (failure (remote w c (sent w) _)) as [e|];
      [simpl; repeat split; auto; try congruence|].
    destruct (unmarshalUpdates _) as [txt|[[|] count]];
      simpl; repeat split; auto; try congruence.
  - unfold callSendGIF, checkFileExists, clientDo.
    destruct (stat w "./uploads/happy.gif"); simpl; [|auto].
    destruct (failure (remote w c (sent w) _)) as [e|];
      simpl; repeat split; auto; try congruence.
  - unfold callSendVoice, checkFileExists, clientDo.
    destruct (stat w "./uploads/test.ogg"); simpl; [|auto].
    destruct (failure (remote w c (sent w) _)) as [e|];
      simpl; repeat split; auto; try congruence.
  - unfold callSendVideo, checkFileExists, clientDo.
    destruct (stat w "./uploads/test_small.mp4"); simpl; [|auto].
    destruct (failure (remote w c (sent w) _)) as [e|];
      simpl; repeat split; auto; try congruence.
Qed.

(** ** Identifiers as text *)

Lemma digitOf_pretty_N_char (d : N) :
  (d < 10)%N -> digitOf (pretty_N_char d) = Some (Z.of_N d).
Proof.
  intros Hd.
  assert (H : (d = 0 \/ d = 1 \/ d = 2 \/ d = 3 \/ d = 4 \/ d = 5
               \/ d = 6 \/ d = 7 \/ d = 8 \/ d = 9)%N) by lia.
  repeat (destruct H as [->|H]; [reflexivity|]). subst d. reflexivity.
Qed.

Lemma parseDigits_pretty_N_go (x : N) :
  forall s : string,
    (x <= 18446744073709551615)%N ->
    parseDigits (pretty_N_go x s) 0 = parseDigits s (Z.of_N x).
Proof.
  induction (N.lt_wf_0 x) as [x _ IH]. intros s Hx.
  destruct (N.eq_dec x 0%N) as [->|Hne]; [reflexivity|].
  rewrite pretty_N_go_step by lia.
  pose proof (N.div_mod x 10 ltac:(lia)) as Hdm.
  pose proof (N.mod_lt x 10 ltac:(lia)) as Hm.
  assert (Hdiv : (N.div x 10 < x)%N) by (apply N.div_lt; lia).
  rewrite IH by lia.
  cbn [parseDigits].
  rewrite digitOf_pretty_N_char by exact Hm.
  generalize dependent (N.div x 10). generalize dependent (N.modulo x 10).
  intros r Hr q Hdm Hq.
  destruct (Z.leb_spec 1844674407370955162 (Z.of_N q)) as [Hle|_]; [lia|].
  replace (Z.of_N q * 10 + Z.of_N r) with (Z.of_N x) by lia.
  destruct (Z.ltb_spec 18446744073709551615 (Z.of_N x)) as [Hlt|_]; [lia|].
  reflexivity.
Qed.

Lemma pretty_N_go_head (x : N) :
  forall s : string,
    (0 < x)%N ->
    exists (c : ascii) (rest : string),
      pretty_N_go x s = String c rest /\ digitOf c <> None.
Proof.
  induction (N.lt_wf_0 x) as [x _ IH]. intros s Hx.
  rewrite pretty_N_go_step by exact Hx.
  pose proof (N.mod_lt x 10 ltac:(lia)) as Hm.
  destruct (N.eq_dec (N.div x 10) 0%N) as [Hz|Hnz].
  - rewrite Hz, pretty_N_go_0. eexists _, _. split; [reflexivity|].
    rewrite digitOf_pretty_N_char by exact Hm. discriminate.
  - apply IH; [apply N.div_lt; lia|apply N.neq_0_lt_0; exact Hnz].
Qed.

Lemma digit_not_sign (c : ascii) :
  digitOf c <> None -> Ascii.eqb c "+" = false /\ Ascii.eqb c "-" = false.
Proof.
  intros Hd. split.
  - destruct (Ascii.eqb_spec c "+") as [->|]; [|reflexivity]. exfalso. apply Hd. reflexivity.
  - destruct (Ascii.eqb_spec c "-") as [->|]; [|reflexivity]. exfalso. apply Hd. reflexivity.
Qed.

Lemma ParseInt_FormatInt (z : Z) :
  - 2 ^ 63 <= z < 2 ^ 63 -> ParseInt (FormatInt z) = inl z.
Proof.
  intros Hz. unfold FormatInt, pretty, pretty_Z.
  destruct z as [|p|p].
  - reflexivity.
  - unfold pretty, pretty_positive, pretty, pretty_N.
    destruct (decide (N.pos p = 0%N)) as [|_]; [discriminate|].
    destruct (pretty_N_go_head (N.pos p) "" ltac:(lia)) as (c & rest & Hs & Hd).
    pose proof (parseDigits_pretty_N_go (N.pos p) "" ltac:(lia)) as Hp.
    rewrite Hs in Hp |- *. unfold ParseInt.
    destruct (digit_not_sign c Hd) as [-> ->]. cbn [orb ParseUint].
    rewrite Hp. cbn [parseDigits negb andb].
    destruct (Z.leb_spec (2 ^ 63) (Z.of_N (N.pos p))) as [Hle|_]; [simpl in Hle; lia|].
    reflexivity.
  - unfold pretty, pretty_positive, pretty, pretty_N.
    destruct (decide (N.pos p = 0%N)) as [|_]; [discriminate|].
    destruct (pretty_N_go_head (N.pos p) "" ltac:(lia)) as (c & rest & Hs & Hd).
    pose proof (parseDigits_pretty_N_go (N.pos p) "" ltac:(lia)) as Hp.
    rewrite Hs in Hp |- *.
    change ("-" +:+ String c rest) with (String "-" (String c rest)).
    unfold ParseInt.
    change (Ascii.eqb "-" "-") with true. change (Ascii.eqb "-" "+") with false.
    cbn [orb ParseUint]. rewrite Hp. cbn [parseDigits negb andb].
    destruct (Z.ltb_spec (2 ^ 63) (Z.of_N (N.pos p))) as [Hlt|_]; [simpl in Hlt; lia|].
    reflexivity.
Qed.

Lemma parseDigits_nonneg (s : string) :
  forall (n z : Z), 0 <= n -> parseDigits s n = inl z -> 0 <= z.
Proof.
  induction s as [|c s IH]; intros n z Hn Hp; simpl in Hp.
  - injection Hp as <-. exact Hn.
  - unfold digitOf in Hp.
    destruct ((48 <=? Z.of_nat (nat_of_ascii c)) && (Z.of_nat (nat_of_ascii c) <=? 57))
      eqn:Ed; [|discriminate].
    destruct (1844674407370955162 <=? n); [discriminate|].
    destruct (18446744073709551615 <? _); [discriminate|].
    apply andb_prop in Ed as [E1 E2].
    eapply IH; [|exact Hp]. lia.
Qed.

Lemma ParseInt_range (s : string) (z : Z) :
  ParseInt s = inl z -> - 2 ^ 63 <= z < 2 ^ 63.
Proof.
  unfold ParseInt. destruct s as [|c s]; [discriminate|]. cbv zeta.
  remember (if Ascii.eqb c "+" || Ascii.eqb c "-" then s else String c s) as d eqn:Ed.
  destruct (ParseUint d) as [un|e] eqn:Eu; [|discriminate].
  assert (Hun : 0 <= un).
  { unfold ParseUint in Eu. destruct d; [discriminate|].
    eapply parseDigits_nonneg; [|exact Eu]. lia. }
  destruct (Ascii.eqb c "-"); cbn [negb andb].
  - destruct (Z.ltb_spec (2 ^ 63) un) as [Hgt|Hle]; [discriminate|].
    intros Heq. injection Heq as <-. lia.
  - destruct (Z.leb_spec (2 ^ 63) un) as [Hge|Hlt]; [discriminate|].
    intros Heq. injection Heq as <-. lia.
Qed.

(** X13: [ChatIDFromString] undoes [strconv.FormatInt] on every 64-bit
    identifier, and whatever text it is given its result is a 64-bit
    integer. *)
Theorem ChatIDFromString_FormatInt (z : Z) (s : string) :
  - 2 ^ 63 <= z < 2 ^ 63 ->
  ChatIDFromString (FormatInt z) = z
  /\ - 2 ^ 63 <= ChatIDFromString s < 2 ^ 63.
Proof.
  intros Hz. unfold ChatIDFromString. rewrite (ParseInt_FormatInt z Hz).
  split; [reflexivity|].
  destruct (ParseInt s) as [id|e] eqn:E; [exact (ParseInt_range s id E)|lia].
Qed.

Lemma ChatIDFromString_FormatInt_witness :
  ChatIDFromString (FormatInt (-1001234567890)) = -1001234567890
  /\ - 2 ^ 63 <= ChatIDFromString "12a" < 2 ^ 63.
Proof.
  apply (ChatIDFromString_FormatInt (-1001234567890) "12a"). lia.
Defined.

(** X14: The constructor never rejects the identifier that [main] hands it:
    given [strconv.FormatInt(id, 10)] of a 64-bit [id] it either
    succeeds with [chatID = id] or fails because the log cannot be
    opened, never with "invalid chatID". *)
Theorem NewScheduler_accepts_formatted_id
    (rfc3339 : Z -> string) (unmarshalUpdates : string -> string + (bool * Z))
    (id : Z) (c : TelegramClient) (interval : Q) (runs retries delay : Z)
    (logFilePath : string) (w : World) :
  - 2 ^ 63 <= id < 2 ^ 63 ->
  match NewScheduler rfc3339 unmarshalUpdates (FormatInt id) c interval runs
          retries delay logFilePath w with
  | inl m => chatID (sched m) = id /\ openErr w logFilePath = None
  | inr e =>
    exists txt : string,
      openErr w logFilePath = Some txt
      /\ e = errorString ("cannot open log file: " ++ txt)
  end.
Proof.
  intros Hid. unfold NewScheduler. rewrite (ParseInt_FormatInt id Hid).
  destruct (openErr w logFilePath) as [txt|]; [eauto|]. simpl. auto.
Qed.

Lemma NewScheduler_accepts_formatted_id_witness :
  match NewScheduler sampleFormat sampleUnmarshal (FormatInt (-1001234567890))
          (mkClient "token") (1 # 10) 0 2 5 "logs/api_check.log" sampleWorld with
  | inl m => chatID (sched m) = -1001234567890
             /\ openErr sampleWorld "logs/api_check.log" = None
  | inr e =>
    exists txt : string,
      openErr sampleWorld "logs/api_check.log" = Some txt
      /\ e = errorString ("cannot open log file: " ++ txt)
  end.
Proof.
  apply (NewScheduler_accepts_formatted_id sampleFormat sampleUnmarshal
           (-1001234567890) (mkClient "token") (1 # 10) 0 2 5
           "logs/api_check.log" sampleWorld).
  lia.
Defined.

(** ** The messaging client *)

(** X15: With these methods a nil error means a 2xx answer: when
    [postJSON], [SendMessageRaw] or [FetchUpdatesRaw] returns no error,
    the status code is in 200..299 and a body is returned; when it
    returns an error, either no body is returned or the status is
    outside 200..299.  With an empty token all three fail with status
    0 whatever the transport would answer, so no request is made. *)
Theorem raw_nil_error_means_2xx
    (net : Raw.Net) (marshal : Z -> string -> error + string)
    (c : TelegramClient) (method : string) (marshalled : error + string)
    (chatID : Z) (text params : string) :
  let sound (r : Raw.rawResult) :=
    (snd r = None -> 200 <= snd (fst r) < 300 /\ fst (fst r) <> None)
    /\ (snd r <> None ->
        fst (fst r) = None \/ snd (fst r) < 200 \/ 300 <= snd (fst r)) in
  let unsent (f : Raw.Net -> Raw.rawResult) :=
    Token c = "" ->
    forall net' : Raw.Net,
      f net' = (None, 0, Some (errorString "⚠️ Telegram token empty")) in
  sound (Raw.postJSON net c method marshalled)
  /\ sound (Raw.SendMessageRaw net marshal c chatID text)
  /\ sound (Raw.FetchUpdatesRaw net c params)
  /\ unsent (fun n => Raw.postJSON n c method marshalled)
  /\ unsent (fun n => Raw.SendMessageRaw n marshal c chatID text)
  /\ unsent (fun n => Raw.FetchUpdatesRaw n c params).
Proof.
  cbv zeta.
  assert (Hpost : forall meth ms,
             (snd (Raw.postJSON net c meth ms) = None ->
              200 <= snd (fst (Raw.postJSON net c meth ms)) < 300
              /\ fst (fst (Raw.postJSON net c meth ms)) <> None)
             /\ (snd (Raw.postJSON net c meth ms) <> None ->
                 fst (fst (Raw.postJSON net c meth ms)) = None
                 \/ snd (fst (Raw.postJSON net c meth ms)) < 200
                 \/ 300 <= snd (fst (Raw.postJSON net c meth ms)))).
  { intros meth ms. unfold Raw.postJSON.
    destruct (String.eqb (Token c) ""); [simpl; split; [discriminate|auto]|].
    destruct ms as [e|body]; [simpl; split; [discriminate|auto]|].
    destruct (net _) as [e|resp]; [simpl; split; [discriminate|auto]|].
    destruct (Z.ltb_spec (Raw.StatusCode resp) 200) as [Hlo|Hlo];
      [simpl; split; [discriminate|intros _; right; left; exact Hlo]|].
    destruct (Z.leb_spec 300 (Raw.StatusCode resp)) as [Hhi|Hhi]; simpl.
    - split; [discriminate|intros _; right; right; exact Hhi].
    - split; [intros _; split; [lia|discriminate]|intros H; congruence]. }
  split; [apply Hpost|]. split; [apply Hpost|]. split.
  - unfold Raw.FetchUpdatesRaw.
    destruct (String.eqb (Token c) ""); [simpl; split; [discriminate|auto]|].
    destruct (net _) as [e|resp]; [simpl; split; [discriminate|auto]|].
    destruct (Raw.ReadErr resp) as [e|]; [simpl; split; [discriminate|auto]|].
    destruct (Z.ltb_spec (Raw.StatusCode resp) 200) as [Hlo|Hlo];
      [simpl; split; [discriminate|intros _; right; left; exact Hlo]|].
    destruct (Z.leb_spec 300 (Raw.StatusCode resp)) as [Hhi|Hhi]; simpl.
    + split; [discriminate|intros _; right; right; exact Hhi].
    + split; [intros _; split; [lia|discriminate]|intros H; congruence].
  - split; [|split]; intros Ht net';
      unfold Raw.SendMessageRaw, Raw.postJSON, Raw.FetchUpdatesRaw;
      rewrite Ht; reflexivity.
Qed.

Lemma raw_nil_error_means_2xx_witness :
  Raw.postJSON (sampleNet 200) (mkClient "") "sendMessage" (inr "{}")
  = (None, 0, Some (errorString "⚠️ Telegram token empty"))
  /\ Raw.FetchUpdatesRaw (sampleNet 200) (mkClient "") "?offset=0"
     = (None, 0, Some (errorString "⚠️ Telegram token empty")).
Proof.
  destruct (raw_nil_error_means_2xx (sampleNet 200) (fun _ _ => inr "{}")
              (mkClient "") "sendMessage" (inr "{}") 7 "hello" "?offset=0")
    as (_ & _ & _ & Hp & _ & Hf).
  split; [apply Hp; reflexivity|apply Hf; reflexivity].
Defined.

Lemma sliceTo_length (n : nat) (s : string) :
  String.length (Raw.sliceTo n s) = Nat.min n (String.length s).
Proof.
  revert s; induction n as [|n IH]; intros [|c s]; simpl; try reflexivity.
  rewrite IH. reflexivity.
Qed.

Lemma sliceTo_all (n : nat) (s : string) :
  (String.length s <= n)%nat -> Raw.sliceTo n s = s.
Proof.
  revert s; induction n as [|n IH]; intros [|c s] H; simpl in *;
    try reflexivity; try lia.
  rewrite IH by lia. reflexivity.
Qed.

Lemma string_length_app (s1 s2 : string) :
  String.length (s1 ++ s2) = (String.length s1 + String.length s2)%nat.
Proof. induction s1 as [|c s1 IH]; simpl; [reflexivity|rewrite IH; reflexivity]. Qed.

Lemma string_prefix_app (s1 s2 : string) : String.prefix s1 (s1 ++ s2) = true.
Proof.
  induction s1 as [|c s1 IH]; simpl; [destruct s2; reflexivity|].
  destruct (Ascii.ascii_dec c c); [exact IH|contradiction].
Qed.

(** X16: The text that [SendMessageRaw] sends is never longer than 4016
    bytes: a text of at most 4000 bytes is sent as it is, a longer one
    is cut to its first 4000 bytes followed by the 16-byte marker, so
    the first 4000 bytes always survive. *)
Theorem clipText_bound (text : string) :
  (String.length (Raw.clipText text) <= 4016)%nat
  /\ ((String.length text <= 4000)%nat -> Raw.clipText text = text)
  /\ ((4000 < String.length text)%nat ->
      String.length (Raw.clipText text) = 4016%nat)
  /\ String.prefix (Raw.sliceTo 4000 text) (Raw.clipText text) = true.
Proof.
  unfold Raw.clipText, Raw.maxLen.
  destruct (Nat.ltb_spec 4000 (String.length text)) as [Hlong|Hshort].
  - rewrite string_length_app, sliceTo_length.
    change (String.length (String "010"%char "... [truncated]")) with 16%nat.
    split; [lia|]. split; [lia|]. split; [lia|].
    apply string_prefix_app.
  - split; [lia|]. split; [reflexivity|]. split; [lia|].
    rewrite sliceTo_all by exact Hshort.
    clear. induction text as [|c t IH]; simpl; [reflexivity|].
    destruct (Ascii.ascii_dec c c); [exact IH|contradiction].
Qed.

(** ** Edge cases of a cycle *)

Lemma stopLocked_stays_closed (m : Machine) :
  isClosed m = true -> isClosed (stopLocked m) = true.
Proof.
  intros Hc. unfold stopLocked. destruct (running (sched m)); [|exact Hc].
  apply isClosed_true in Hc. apply isClosed_true. simpl.
  apply list_lookup_insert_eq. apply lookup_lt_Some in Hc. exact Hc.
Qed.

Lemma externalStop_stays_closed (env : Env) (m : Machine) :
  isClosed m = true -> isClosed (externalStop env m) = true.
Proof.
  intros Hc. unfold externalStop. destruct (stopAt env) as [t|]; [|exact Hc].
  destruct (t <=? clock (world m)); [apply stopLocked_stays_closed|]; exact Hc.
Qed.

Lemma callWithRetry_stopped_early
    (env : Env) (apiName : string) (fn : apiCallFunc) (m : Machine) :
  0 <= retryCount (sched m) ->
  fst (stopRequested env m) = true ->
  fst (callWithRetry env apiName fn m) = ("", 0, Some (errorString "stopped"))
  /\ world (snd (callWithRetry env apiName fn m)) = world m
  /\ out (snd (callWithRetry env apiName fn m)) = out m
  /\ isClosed (snd (callWithRetry env apiName fn m)) = true.
Proof.
  intros Hn Hs. unfold callWithRetry.
  replace (Z.to_nat (retryCount (sched m) + 1))
    with (S (Z.to_nat (retryCount (sched m)))) by lia.
  cbn [retryLoop].
  destruct (externalStop_frame env m) as [Hw Ho].
  unfold stopRequested in *. simpl in Hs. rewrite Hs. simpl. auto.
Qed.

(** X17: A cycle begun after the stop signal invokes nothing and sends
    nothing, but still writes one row: for the first operation of the
    execution order, with the text "stopped (status=0)", marked as a
    failure; the closing banner is not written. *)
Theorem runOnce_after_stop
    (env : Env) (m : Machine) (name : string) (rest : list string)
    (fn : apiCallFunc) :
  fst (stopRequested env m) = true ->
  0 <= retryCount (sched m) ->
  apiOrder (sched m) = name :: rest ->
  apiCalls (sched m) !! name = Some fn ->
  exists m' : Machine,
    runOnce env m = Some m'
    /\ out m'
       = (out m ++ [EvRunStarted (clock (world m));
                    EvRow 0 name "stopped (status=0)" false])%list
    /\ world m' = world m
    /\ isClosed m' = true.
Proof.
  intros Hstop Hn Hord Hfn. unfold runOnce.
  set (m0 := emit (EvRunStarted (clock (world m))) m).
  change (apiOrder (sched m0)) with (apiOrder (sched m)). rewrite Hord.
  cbn [runOps]. change (apiCalls (sched m0)) with (apiCalls (sched m)). rewrite Hfn.
  assert (Hstop0 : fst (stopRequested env m0) = true).
  { unfold stopRequested in *. simpl in *.
    unfold externalStop in *. change (world m0) with (world m).
    destruct (stopAt env) as [t|]; [|exact Hstop].
    destruct (t <=? clock (world m)); [|exact Hstop].
    unfold stopLocked in *. change (sched m0) with (sched m).
    destruct (running (sched m)); exact Hstop. }
  destruct (callWithRetry_stopped_early env name fn m0 Hn Hstop0) as (Hr & Hw & Ho & Hcl).
  destruct (callWithRetry env name fn m0) as [[[res status] err] m1].
  simpl in Hr, Hw, Ho, Hcl. injection Hr as -> -> ->.
  unfold stopRequested.
  match goal with |- context [externalStop env ?M] =>
    assert (Hcl2 : isClosed (externalStop env M) = true)
      by (apply externalStop_stays_closed; exact Hcl);
    destruct (externalStop_frame env M) as [Hw2 Ho2]
  end.
  rewrite Hcl2.
  eexists. split; [reflexivity|].
  rewrite Hw2, Ho2. simpl. rewrite Hw, Ho. subst m0. simpl.
  split; [rewrite <- app_assoc; reflexivity|]. split; [reflexivity|exact Hcl2].
Qed.

Lemma runOnce_after_stop_witness :
  exists m' : Machine,
    runOnce (stopEnv 0) (builtMachine 0) = Some m'
    /\ out m'
       = (out (builtMachine 0)
          ++ [EvRunStarted (clock (world (builtMachine 0)));
              EvRow 0 "SendMessage" "stopped (status=0)" false])%list
    /\ world m' = world (builtMachine 0)
    /\ isClosed m' = true.
Proof.
  apply (runOnce_after_stop (stopEnv 0) (builtMachine 0) "SendMessage"
           ["SendGIF"; "SendVoice"; "SendVideo"; "GetUpdates"]
           (callSendMessage sampleFormat 123 (mkClient "token")));
    [reflexivity | vm_compute; discriminate | reflexivity | reflexivity].
Defined.

Lemma runOps_negative_retry (env : Env) :
  forall (names : list string) (i : Z) (m : Machine) (b : bool) (m' : Machine),
    retryCount (sched m) < 0 ->
    runOps env i names m = Some (b, m') ->
    exists evs : list Event,
      out m' = (out m ++ evs)%list
      /\ attemptsOf evs = [] /\ waitsOf evs = []
      /\ Forall emptySuccessRow evs.
Proof.
  induction names as [|apiName rest IH]; intros i m b m' Hneg Hr.
  - simpl in Hr. injection Hr as _ <-. exists []. rewrite app_nil_r. auto.
  - cbn [runOps] in Hr.
    destruct (apiCalls (sched m) !! apiName) as [fn|]; [|discriminate].
    unfold callWithRetry in Hr.
    replace (Z.to_nat (retryCount (sched m) + 1)) with 0%nat in Hr by lia.
    cbn [retryLoop] in Hr.
    unfold stopRequested in Hr.
    match type of Hr with context [externalStop env ?M] =>
      destruct (externalStop_frame env M) as [_ Ho2];
      pose proof (evolves_externalStop env M) as Hev;
      set (m2 := externalStop env M) in *
    end.
    simpl in Ho2.
    destruct (isClosed m2).
    + injection Hr as _ <-. exists [EvRow i apiName " (status=0)" true].
      rewrite Ho2. split; [reflexivity|]. split; [reflexivity|]. split; [reflexivity|].
      constructor; [split; reflexivity|constructor].
    + destruct (clientDo _ _ _) as [r w].
      destruct (IH (i + 1) (setWorld w m2) b m') as (evs & Ho & Ha & Hw & Hf).
      { destruct Hev as [Hs _]. apply onlyRunning_fields in Hs. simpl in *.
        intuition congruence. }
      { exact Hr. }
      exists (EvRow i apiName " (status=0)" true :: evs).
      split; [rewrite Ho; simpl; rewrite Ho2, <- app_assoc; reflexivity|].
      split; [exact Ha|]. split; [exact Hw|].
      constructor; [split; reflexivity|exact Hf].
Qed.

(** X18: A negative [retryCount] switches every operation off without
    saying so: in any environment a cycle invokes no operation and
    waits for nothing, and every row it writes reports success with an
    empty message and status 0. *)
Theorem runOnce_negative_retry (env : Env) (m m' : Machine) :
  retryCount (sched m) < 0 ->
  runOnce env m = Some m' ->
  exists evs : list Event,
    out m' = (out m ++ evs)%list
    /\ attemptsOf evs = [] /\ waitsOf evs = []
    /\ Forall emptySuccessRow evs.
Proof.
  intros Hneg Hr. unfold runOnce in Hr.
  destruct (runOps env 0 _ _) as [[b m1]|] eqn:E; [|discriminate].
  apply runOps_negative_retry in E; [|exact Hneg].
  destruct E as (evs & Ho & Ha & Hw & Hf). simpl in Ho.
  destruct b; injection Hr as <-.
  - exists (EvRunStarted (clock (world m)) :: evs ++ [EvRunCompleted])%list.
    simpl. rewrite Ho, attemptsOf_app, waitsOf_app, Ha, Hw, <- !app_assoc.
    split; [reflexivity|]. split; [reflexivity|]. split; [reflexivity|].
    constructor; [exact I|]. apply Forall_app. split; [exact Hf|].
    constructor; [exact I|constructor].
  - exists (EvRunStarted (clock (world m)) :: evs)%list.
    rewrite Ho, <- app_assoc. simpl.
    split; [reflexivity|]. split; [exact Ha|]. split; [exact Hw|].
    constructor; [exact I|exact Hf].
Qed.

Lemma runOnce_negative_retry_witness :
  exists (m' : Machine) (evs : list Event),
    runOnce quietEnv (sampleMachine 0 (-1) 5) = Some m'
    /\ out m' = (out (sampleMachine 0 (-1) 5) ++ evs)%list
    /\ attemptsOf evs = [] /\ waitsOf evs = []
    /\ Forall emptySuccessRow evs.
Proof.
  eexists.
  assert (Hr : runOnce quietEnv (sampleMachine 0 (-1) 5) = Some _)
    by (vm_compute; reflexivity).
  destruct (runOnce_negative_retry quietEnv (sampleMachine 0 (-1) 5) _
              ltac:(vm_compute; reflexivity) Hr) as (evs & H).
  exists evs. split; [exact Hr|exact H].
Defined.
